(** * Source correlation for the SSA form of Go packages

    A shallow embedding of [source.go] of package [ssa]: the utilities that
    relate syntax ([go/ast]), type-checker objects ([go/types]) and SSA
    values, with the properties its specification states about them.

    Go pointers that the code compares with [nil] are options, Go maps are
    finite maps keyed by the address of the key object, and a run-time panic
    (index out of range, nil dereference, failed type assertion) is an
    explicit outcome of the functions that can raise one. *)

From Stdlib Require Import ZArith String List Bool Lia.
From stdpp Require Import base option list gmap.

Open Scope string_scope.
Open Scope list_scope.

(** ** Run-time panics *)

Inductive panic : Set :=
| IndexOutOfRange        (* s[i] with i outside of s *)
| NilDereference         (* p.f with p == nil *)
| InterfaceConversion.   (* x.(T) where x does not hold a T *)

Inductive result (A : Type) : Type :=
| Ok (a : A)
| Panic (p : panic).

Arguments Ok {A} a.
Arguments Panic {A} p.

#[export] Instance result_ret : MRet result := fun A a => Ok a.

#[export] Instance result_bind : MBind result := fun A B k m =>
  match m with
  | Ok a => k a
  | Panic p => Panic p
  end.

(** Computations that allocate: the state is the next free address. *)
Definition Addr := positive.

Definition alloc (A : Type) : Type := Addr -> result (A * Addr).

#[export] Instance alloc_ret : MRet alloc := fun A a next => Ok (a, next).

#[export] Instance alloc_bind : MBind alloc := fun A B k m next =>
  match m next with
  | Ok (a, next') => k a next'
  | Panic p => Panic p
  end.

Definition lift {A} (r : result A) : alloc A := fun next =>
  match r with
  | Ok a => Ok (a, next)
  | Panic p => Panic p
  end.

(** ** go/token *)

Module token.

Definition Pos := Z.

Inductive Token : Set := IMPORT | CONST | TYPE | VAR.

Definition Token_eqb (a b : Token) : bool :=
  match a, b with
  | IMPORT, IMPORT | CONST, CONST | TYPE, TYPE | VAR, VAR => true
  | _, _ => false
  end.

End token.

(** ** go/ast: the nodes the correlation layer inspects *)

Module ast.

(** [*ast.Ident]; [Pos()] of an identifier is its [NamePos]. *)
Record Ident : Set := mkIdent { Name : string; NamePos : token.Pos }.

(** [*ast.FieldList]: the code only tests a receiver list against [nil]. *)
Record FieldList : Set := mkFieldList { Opening : token.Pos }.

(** [*ast.FuncType]; [Func] is the position of the "func" keyword. *)
Record FuncType : Set := mkFuncType { Func : token.Pos }.

(** An [ast.Node] of an ancestor chain.  [OtherNode] stands for every node
    that none of the type switches and assertions of the code select
    (statements, specs, other expressions, a nil interface). *)
Inductive Node : Set :=
| File
| GenDecl (Tok : token.Token)
| FuncDecl (Recv : option FieldList) (Name : Ident)
| FuncLit (Type_ : FuncType)
| IdentNode (id : Ident)
| OtherNode.

(** An [ast.Expr] as [ValueForExpr] sees it: an interface value that is nil
    or points to a node at some address; a parenthesis node holds its
    operand [X]. *)
Inductive Expr : Set :=
| NilExpr
| ParenExpr (at_ : Addr) (X : Expr)
| OtherExpr (at_ : Addr).

(** [a == b] on two [ast.Expr] interface values: both nil, or the same
    dynamic type and the same pointer. *)
Definition Expr_eqb (a b : Expr) : bool :=
  match a, b with
  | NilExpr, NilExpr => true
  | ParenExpr p _, ParenExpr q _ => Pos.eqb p q
  | OtherExpr p, OtherExpr q => Pos.eqb p q
  | _, _ => false
  end.

End ast.

(** ** go/exact and go/types: what the type checker hands over *)

Module exact.

Inductive Value : Set :=
| Bool (b : bool)
| Int (z : Z)
| String (s : string)
| Nil.

End exact.

Module types.

(** [types.Type]; [Pointer] is what [types.NewPointer] builds. *)
Inductive Type_ : Set :=
| Basic (name : string)
| Named (id : positive)
| Pointer (elem : Type_).

(** [*types.Scope] as returned by [Parent()]; [Universe] is the one scope
    of the predeclared objects. *)
Inductive Scope : Set :=
| NoScope
| Universe
| ScopeAt (id : positive).

Definition Scope_eqb (a b : Scope) : bool :=
  match a, b with
  | NoScope, NoScope => true
  | Universe, Universe => true
  | ScopeAt i, ScopeAt j => Pos.eqb i j
  | _, _ => false
  end.

(** A [types.Object].  [addr] is the address of the object: two objects are
    the same object (Go's [==] on them, and their use as a map key) exactly
    when their addresses agree.  [Pkg] is [None] for the nil package of a
    predeclared object. *)
Record Object : Set := mkObject {
  addr : Addr;
  Pkg : option positive;
  Name : string;
  Pos : token.Pos;
  Parent : Scope;
  Typ : Type_
}.

Definition Func : Set := Object.
Definition Var : Set := Object.

(** [*types.Const]: an object with its constant value [Val()]. *)
Record Const : Set := mkConst { object : Object; Val : exact.Value }.

(** [*types.Selection], an entry of a method set; [Obj()] of such an entry
    is always a [*types.Func]. *)
Record Selection : Set := mkSelection { Obj : Func }.

End types.

(** ** Package ssa: the data *)

(** [*Const]: a constant value with its type.  [Const_at] is the address of
    the cell, so that a newly allocated constant can be told from one held
    in a table. *)
Record Const : Set := mkConst {
  Const_at : Addr;
  Const_Value : exact.Value;
  Const_typ : types.Type_
}.

Record Global : Set := mkGlobal { Global_name : string; Global_object : types.Var }.

Record Builtin : Set := mkBuiltin { Builtin_object : types.Func }.

(** [*Parameter] ([Parameter] is reserved in Rocq); [Object()] is the
    variable it was declared as. *)
Record Param : Set := mkParam {
  Param_name : string;
  Param_object : types.Var
}.

(** A non-nil [Value]: the dynamic types the lookups distinguish, and
    [VRegister] for the values that instructions produce.  [F] is the type
    of functions, tied below. *)
Inductive Value (F : Type) : Type :=
| VFunction (f : F)
| VGlobal (g : Global)
| VConst (c : Const)
| VBuiltin (b : Builtin)
| VParameter (p : Param)
| VRegister (id : positive).

Arguments VFunction {F} f.
Arguments VGlobal {F} g.
Arguments VConst {F} c.
Arguments VBuiltin {F} b.
Arguments VParameter {F} p.
Arguments VRegister {F} id.

(** [*DebugRef]: the expression it stands for, its position [Pos()], and the
    value [X] (a [Value] interface, [None] when nil). *)
Record DebugRef (F : Type) : Type := mkDebugRef {
  Expr : ast.Expr;
  DebugRef_Pos : token.Pos;
  X : option (Value F)
}.

Arguments mkDebugRef {F} _ _ _.
Arguments Expr {F} _.
Arguments DebugRef_Pos {F} _.
Arguments X {F} _.

Inductive Instruction (F : Type) : Type :=
| IDebugRef (ref : DebugRef F)
| IOther.

Arguments IDebugRef {F} ref.
Arguments IOther {F}.

Record BasicBlock (F : Type) : Type := mkBasicBlock { Instrs : list (Instruction F) }.

Arguments mkBasicBlock {F} _.
Arguments Instrs {F} _.

Set Warnings "-register-all".

(** [*Function].  [Pos()] is the position of the "func" keyword of a
    literal, or of the name of a declared function. *)
Inductive Function : Type := mkFunction {
  name : string;
  Function_Pos : token.Pos;
  Params : list Param;
  AnonFuncs : list Function;
  Blocks : list (BasicBlock Function);
  debug : bool
}.

(** A [Member] of a package. *)
Inductive Member : Type :=
| MFunction (f : Function)
| MType (T : types.Type_)
| MGlobal (g : Global)
| MNamedConst (c : Const).

(** [*Package].  [Members] is a Go map that [findNamedFunc] only ranges
    over: the list gives its entries in the order one such iteration visits
    them.  [values] is keyed by the address of the object. *)
Record Package : Type := mkPackage {
  init : option Function;
  Members : list (string * Member);
  values : gmap Addr (Value Function)
}.

(** [*Program]: the packages created so far, by the identity of their
    [*types.Package], and the universal built-ins. *)
Record Program : Type := mkProgram {
  packages : gmap positive Package;
  builtins : gmap Addr Builtin
}.

(** ** What the file takes from elsewhere

    [source.go] calls into [go/types] and into other files of package [ssa].
    Their code is not part of this development; the functions below are
    stated for every implementation of them. *)
Class Collaborators : Type := {
  (** [T.MethodSet()] of [go/types]: the bindings of the method set of [T],
      in the order of [At(0)], [At(1)], ... *)
  MethodSet : types.Type_ -> list types.Selection;
  (** [recvType(obj)]: the receiver type of the method [obj]. *)
  recvType : types.Func -> types.Type_;
  (** [prog.Method(meth)] on a binding that exists: the function that
      implements it, a wrapper built on demand when the binding needs one. *)
  methodFunction : Program -> types.Selection -> Function
}.

(** Modelled from the spec: [Function.debugInfo()], whose body is in another
    file.  "Debug info requested" is a per-function boolean. *)
Definition debugInfo (f : Function) : bool := debug f.

(** Modelled from the spec: [unparen], whose body is in another file.  It
    strips redundant parenthesization: every enclosing parenthesis node. *)
Fixpoint unparen (e : ast.Expr) : ast.Expr :=
  match e with
  | ast.ParenExpr _ X => unparen X
  | _ => e
  end.

(** Modelled from the spec: [NewConst], whose body is in another file.  It
    synthesizes a fresh Const from a literal value and a type: the cell is
    the next free address. *)
Definition NewConst (val : exact.Value) (typ : types.Type_) : alloc (option Const) :=
  fun next => Ok (Some (mkConst next val typ), Pos.succ next).

(** Modelled from the spec: [MethodSet.Lookup(pkg, name)] of [go/types]: the
    binding for (pkg, name), nil when there is none. *)
Definition Lookup (mset : list types.Selection) (pkg : option positive) (name : string)
  : option types.Selection :=
  find (fun sel => bool_decide (types.Pkg (types.Obj sel) = pkg)
                   && String.eqb (types.Name (types.Obj sel)) name) mset.

Section Source.

Context `{Collaborators}.

(** Modelled from the spec: [Program.Method], whose body is in another file.
    It resolves a binding to its function, and there is no result only if no
    binding exists. *)
Definition Method (prog : Program) (meth : option types.Selection)
  : option (Value Function) :=
  match meth with
  | Some m => Some (VFunction (methodFunction prog m))
  | None => None
  end.

(** *** findNamedFunc *)

(** The loop over the method set of one type.  [None]: the loop ran to its
    end; [Some r]: it returned [r]. *)
Fixpoint findNamedFunc_mset (pkg : Package) (pos : token.Pos)
  (mset : list types.Selection) : option (result (option Function)) :=
  match mset with
  | [] => None
  | sel :: rest =>
      let obj := types.Obj sel in
      if Z.eqb (types.Pos obj) pos then
        Some (match values pkg !! types.addr obj with
              | Some (VFunction f) => Ok (Some f)
              | _ => Panic InterfaceConversion
              end)
      else findNamedFunc_mset pkg pos rest
  end.

(** The loop over the members. *)
Fixpoint findNamedFunc_members (pkg : Package) (pos : token.Pos)
  (mems : list (string * Member)) : result (option Function) :=
  match mems with
  | [] => Ok None
  | (_, mem) :: rest =>
      match mem with
      | MFunction f =>
          if Z.eqb (Function_Pos f) pos then Ok (Some f)
          else findNamedFunc_members pkg pos rest
      | MType T =>
          match findNamedFunc_mset pkg pos (MethodSet (types.Pointer T)) with
          | Some r => r
          | None => findNamedFunc_members pkg pos rest
          end
      | _ => findNamedFunc_members pkg pos rest
      end
  end.

Definition findNamedFunc (pkg : option Package) (pos : token.Pos)
  : result (option Function) :=
  match pkg with
  | None => Panic NilDereference
  | Some p => findNamedFunc_members p pos (Members p)
  end.

(** *** findEnclosingPackageLevelFunction *)

(** [pkg.init] *)
Definition Package_init (pkg : option Package) : result (option Function) :=
  match pkg with
  | None => Panic NilDereference
  | Some p => Ok (init p)
  end.

Definition findEnclosingPackageLevelFunction (pkg : option Package)
  (path : list ast.Node) : result (option Function) :=
  let n := length path in
  if (2 <=? n)%nat then
    match path !! (n - 2)%nat with
    | None => Panic IndexOutOfRange
    | Some (ast.GenDecl Tok) =>
        if token.Token_eqb Tok token.VAR && (3 <=? n)%nat then Package_init pkg
        else Ok None
    | Some (ast.FuncDecl Recv Name) =>
        if bool_decide (Recv = None) && String.eqb (ast.Name Name) "init"
        then Package_init pkg
        else findNamedFunc pkg (ast.NamePos Name)
    | Some _ => Ok None
    end
  else Ok None.

(** *** HasEnclosingFunction *)

Definition HasEnclosingFunction (pkg : option Package) (path : list ast.Node)
  : result bool :=
  fn ← findEnclosingPackageLevelFunction pkg path;
  Ok (bool_decide (fn ≠ None)).

(** *** EnclosingFunction *)

(** The loop over [fn.AnonFuncs]: the first entry at position [p]. *)
Fixpoint findAnon (anons : list Function) (p : token.Pos) : option Function :=
  match anons with
  | [] => None
  | anon :: rest =>
      if Z.eqb (Function_Pos anon) p then Some anon else findAnon rest p
  end.

(** The loop [for i := range path], from iteration [i] on with [k]
    iterations left; each one reads [path[n-1-i]]. *)
Fixpoint EnclosingFunction_loop (path : list ast.Node) (n : nat) (k i : nat)
  (fn : Function) : result (option Function) :=
  match k with
  | O => Ok (Some fn)
  | S k' =>
      match path !! (n - 1 - i)%nat with
      | None => Panic IndexOutOfRange
      | Some (ast.FuncLit lit) =>
          match findAnon (AnonFuncs fn) (ast.Func lit) with
          | Some anon => EnclosingFunction_loop path n k' (S i) anon
          | None => Ok None
          end
      | Some _ => EnclosingFunction_loop path n k' (S i) fn
      end
  end.

Definition EnclosingFunction (pkg : option Package) (path : list ast.Node)
  : result (option Function) :=
  fn ← findEnclosingPackageLevelFunction pkg path;
  match fn with
  | None => Ok None
  | Some fn =>
      let n := length path in
      EnclosingFunction_loop path n (length path) 0 fn
  end.

(** *** ValueForExpr *)

(** The loop over the instructions of one block.  [None]: the loop ran to
    its end; [Some v]: it returned [v]. *)
Fixpoint ValueForExpr_instrs (e : ast.Expr) (instrs : list (Instruction Function))
  : option (option (Value Function)) :=
  match instrs with
  | [] => None
  | IDebugRef ref :: rest =>
      if ast.Expr_eqb (Expr ref) e then Some (X ref)
      else ValueForExpr_instrs e rest
  | IOther :: rest => ValueForExpr_instrs e rest
  end.

(** The loop over the blocks, down to the final [return nil]. *)
Fixpoint ValueForExpr_blocks (e : ast.Expr) (blocks : list (BasicBlock Function))
  : option (Value Function) :=
  match blocks with
  | [] => None
  | b :: rest =>
      match ValueForExpr_instrs e (Instrs b) with
      | Some v => v
      | None => ValueForExpr_blocks e rest
      end
  end.

Definition ValueForExpr (f : Function) (e : ast.Expr) : option (Value Function) :=
  if debugInfo f then ValueForExpr_blocks (unparen e) (Blocks f)
  else None.

(** *** Lookups by object *)

(** [prog.packages[p]] for a [*types.Package] [p]; no package is created for
    the nil package. *)
Definition Program_Package (prog : Program) (obj : option positive) : option Package :=
  p ← obj; packages prog !! p.

Definition packageLevelValue (prog : Program) (obj : types.Object)
  : option (Value Function) :=
  match Program_Package prog (types.Pkg obj) with
  | Some pkg => values pkg !! types.addr obj
  | None => None
  end.

Definition FuncValue (prog : Program) (obj : types.Func) : option (Value Function) :=
  match builtins prog !! types.addr obj with
  | Some v => Some (VBuiltin v)
  | None =>
      match packageLevelValue prog obj with
      | Some v => Some v
      | None =>
          let meth := Lookup (MethodSet (recvType obj)) (types.Pkg obj) (types.Name obj) in
          Method prog meth
      end
  end.

Definition ConstValue (prog : Program) (obj : types.Const) : alloc (option Const) :=
  if types.Scope_eqb (types.Parent (types.object obj)) types.Universe then
    NewConst (types.Val obj) (types.Typ (types.object obj))
  else
    match packageLevelValue prog (types.object obj) with
    | Some (VConst c) => mret (Some c)
    | Some _ => lift (Panic InterfaceConversion)
    | None => NewConst (types.Val obj) (types.Typ (types.object obj))
    end.

(** *** VarValue *)

(** The loop over [fn.Params]. *)
Fixpoint VarValue_params (obj : types.Var) (params : list Param) : option Param :=
  match params with
  | [] => None
  | param :: rest =>
      if Pos.eqb (types.addr (Param_object param)) (types.addr obj) then Some param
      else VarValue_params obj rest
  end.

(** The loops over the debug references, by position. *)
Fixpoint VarValue_instrs (p : token.Pos) (instrs : list (Instruction Function))
  : option (option (Value Function)) :=
  match instrs with
  | [] => None
  | IDebugRef ref :: rest =>
      if Z.eqb (DebugRef_Pos ref) p then Some (X ref)
      else VarValue_instrs p rest
  | IOther :: rest => VarValue_instrs p rest
  end.

Fixpoint VarValue_blocks (p : token.Pos) (blocks : list (BasicBlock Function))
  : option (Value Function) :=
  match blocks with
  | [] => None
  | b :: rest =>
      match VarValue_instrs p (Instrs b) with
      | Some v => v
      | None => VarValue_blocks p rest
      end
  end.

(** What follows [fn := EnclosingFunction(pkg, ref)] once [fn] is not nil. *)
Definition VarValue_local (obj : types.Var) (id : ast.Ident) (fn : Function)
  : option (Value Function) :=
  let param :=
    if Z.eqb (ast.NamePos id) (types.Pos obj) then VarValue_params obj (Params fn)
    else None in
  match param with
  | Some param => Some (VParameter param)
  | None => VarValue_blocks (ast.NamePos id) (Blocks fn)
  end.

Definition VarValue (prog : Program) (obj : types.Var) (pkg : option Package)
  (ref : list ast.Node) : result (option (Value Function)) :=
  match ref !! 0%nat with
  | None => Panic IndexOutOfRange
  | Some (ast.IdentNode id) =>
      match packageLevelValue prog obj with
      | Some (VGlobal g) => Ok (Some (VGlobal g))
      | Some _ => Panic InterfaceConversion
      | None =>
          fn ← EnclosingFunction pkg ref;
          match fn with
          | None => Ok None
          | Some fn => Ok (VarValue_local obj id fn)
          end
      end
  | Some _ => Panic InterfaceConversion
  end.

End Source.

(** *** FuncValue, with calls that can panic

    The third branch of [FuncValue] calls [recvType] and [Program.Method],
    whose bodies are in other files, on an object that is only known to have
    no built-in entry and no package-level value.  Here the two calls are
    taken with their outcome, a result or a panic, so that the branch can be
    followed for an object on which they do not return. *)
Section FuncValueCalls.

Context {collab : Collaborators}.

(** [recvType(obj)] as a call: the receiver type, or the panic it raises. *)
Variable recvType_call : types.Func -> result types.Type_.

(** [prog.Method(meth)] as a call, [meth] being nil when no binding was
    found. *)
Variable Method_call : Program -> option types.Selection ->
                       result (option (Value Function)).

Definition FuncValue_calls (prog : Program) (obj : types.Func)
  : result (option (Value Function)) :=
  match builtins prog !! types.addr obj with
  | Some v => Ok (Some (VBuiltin v))
  | None =>
      match packageLevelValue prog obj with
      | Some v => Ok (Some v)
      | None =>
          T ← recvType_call obj;
          let meth := Lookup (MethodSet T) (types.Pkg obj) (types.Name obj) in
          Method_call prog meth
      end
  end.

End FuncValueCalls.

(** ** The notions of the specification *)

(** The syntax-only classification of an ancestor chain (section 4.1 of the
    specification, in its words): which top-level declaration encloses the
    node at index 0. *)
Inductive Classification : Set :=
| PackageInitializer
| NamedDeclaration (p : token.Pos)
| NoEnclosing.

Definition ClassifyEnclosingTopLevel (chain : list ast.Node) : Classification :=
  let len := length chain in
  if (len <? 2)%nat then NoEnclosing
  else
    match chain !! (len - 2)%nat with
    | Some (ast.GenDecl token.VAR) =>
        if (3 <=? len)%nat then PackageInitializer else NoEnclosing
    | Some (ast.FuncDecl None name) =>
        if String.eqb (ast.Name name) "init" then PackageInitializer
        else NamedDeclaration (ast.NamePos name)
    | Some (ast.FuncDecl (Some _) name) => NamedDeclaration (ast.NamePos name)
    | _ => NoEnclosing
    end.

(** Step B of section 4.2, in the words of the specification.
    [Descends f0 chain g]: walking [chain] from the root towards index 0,
    starting in [f0] and moving at every function literal into the entry of
    the current function's AnonFuncs at the literal's position, ends in
    [g].  The chain lists the target first, so a step adds a node in front. *)
Inductive Descends (f0 : Function) : list ast.Node -> Function -> Prop :=
| Descends_root : Descends f0 [] f0
| Descends_lit lit outer g anon :
    Descends f0 outer g ->
    findAnon (AnonFuncs g) (ast.Func lit) = Some anon ->
    Descends f0 (ast.FuncLit lit :: outer) anon
| Descends_other n outer g :
    Descends f0 outer g ->
    (forall lit, n <> ast.FuncLit lit) ->
    Descends f0 (n :: outer) g.

(** The same walk as a function; [None] when some literal has no entry. *)
Fixpoint descend (f0 : Function) (chain : list ast.Node) : option Function :=
  match chain with
  | [] => Some f0
  | n :: outer =>
      match descend f0 outer with
      | None => None
      | Some g =>
          match n with
          | ast.FuncLit lit => findAnon (AnonFuncs g) (ast.Func lit)
          | _ => Some g
          end
      end
  end.

(** [isFuncLit n]: the node is a function literal. *)
Definition isFuncLit (n : ast.Node) : bool :=
  match n with
  | ast.FuncLit _ => true
  | _ => false
  end.

(** A package before its functions are built: every function is there, at
    its position, with no parameters, blocks or anonymous functions yet. *)
Definition unbuiltFunction (f : Function) : Function :=
  mkFunction (name f) (Function_Pos f) [] [] [] (debug f).

Definition unbuiltValue (v : Value Function) : Value Function :=
  match v with
  | VFunction f => VFunction (unbuiltFunction f)
  | _ => v
  end.

Definition unbuiltMember (m : Member) : Member :=
  match m with
  | MFunction f => MFunction (unbuiltFunction f)
  | _ => m
  end.

Definition unbuiltPackage (pkg : Package) : Package :=
  mkPackage (unbuiltFunction <$> init pkg)
            (prod_map id unbuiltMember <$> Members pkg)
            (unbuiltValue <$> values pkg).

Definition unbuiltResult (r : result (option Function)) : result (option Function) :=
  match r with
  | Ok o => Ok (option_map unbuiltFunction o)
  | Panic p => Panic p
  end.

(** ** Nesting of anonymous functions *)

(** [NestedAt d f g]: [g] is reached from [f] by going [d] times into an
    entry of AnonFuncs. *)
Inductive NestedAt : nat -> Function -> Function -> Prop :=
| NestedAt_O f : NestedAt 0 f f
| NestedAt_S d f g anon :
    NestedAt d f g -> In anon (AnonFuncs g) -> NestedAt (S d) f anon.

(** The number of function literals on a chain. *)
Definition literals (path : list ast.Node) : nat :=
  length (List.filter isFuncLit path).

(** ** go/types: the entry points of api.go *)

Module api.

(** A [*types.Package] as api.go uses it: the flag [complete] that
    [Config.Check] sets, and the rest of the package. *)
Record Package (D : Type) : Type := mkPackage { contents : D; complete : bool }.

Arguments mkPackage {D} _ _.
Arguments contents {D} _.
Arguments complete {D} _.

Section Check.

Context {Config FileSet File Info Error D : Type}.

(** [var conf Config]: the zero value of a configuration. *)
Variable zero : Config.

(** [conf.check], the type checker proper, whose body is in another file:
    it returns a package pointer and an error, either of which can be nil. *)
Variable check : Config -> string -> FileSet -> list File -> option Info ->
                 option (Package D) * option Error.

(** [Config.Check], a method of a configuration pointer: [pkg.complete = true]
    dereferences [pkg]. *)
Definition Config_Check (conf : Config) (path : string) (fset : FileSet)
  (files : list File) (info : option Info)
  : result (option (Package D) * option Error) :=
  let '(pkg, err) := check conf path fset files info in
  match err with
  | None =>
      match pkg with
      | None => Panic NilDereference
      | Some p => Ok (Some (mkPackage (contents p) true), None)
      end
  | Some _ => Ok (pkg, err)
  end.

(** [Check], with the zero configuration and no [Info]. *)
Definition Check (path : string) (fset : FileSet) (files : list File)
  : result (option (Package D) * option Error) :=
  match Config_Check zero path fset files None with
  | Panic p => Panic p
  | Ok (pkg, Some err) => Ok (None, Some err)
  | Ok (pkg, None) => Ok (pkg, None)
  end.

End Check.

End api.

(** ** A small package to run the code on

<<
    package p
    type T struct{}
    var g = 1
    const c = 2
    func f(a int) { func() { _ = (a) }() }
    func (T) m() {}
    func _() { g++ }
>>
    with positions 5 for [g], 10 for [f], 12 for the parameter [a], 20 for
    the "func" of the literal, 25 for [a] in the literal, 40 for [m] and 70
    for the blank name. *)

Module Sample.

Definition T : types.Type_ := types.Named 1%positive.
Definition I : types.Type_ := types.Named 2%positive.
Definition int : types.Type_ := types.Basic "int".

Definition obj_f : types.Func := types.mkObject 1%positive (Some 1%positive) "f" 10%Z (types.ScopeAt 1%positive) (types.Basic "func(int)").
Definition obj_m : types.Func := types.mkObject 2%positive (Some 1%positive) "m" 40%Z types.NoScope (types.Basic "func()").
Definition obj_g : types.Var := types.mkObject 4%positive (Some 1%positive) "g" 5%Z (types.ScopeAt 1%positive) int.
Definition obj_a : types.Var := types.mkObject 6%positive (Some 1%positive) "a" 12%Z (types.ScopeAt 2%positive) int.
Definition obj_len : types.Func := types.mkObject 9%positive None "len" 0%Z types.Universe (types.Basic "builtin").

(** A method of an interface type [I] of the package, and a function of a
    package for which no SSA package has been created. *)
Definition obj_im : types.Func := types.mkObject 12%positive (Some 1%positive) "im" 50%Z types.NoScope (types.Basic "func()").
Definition obj_h : types.Func := types.mkObject 13%positive (Some 2%positive) "h" 90%Z (types.ScopeAt 3%positive) (types.Basic "func()").

Definition obj_c : types.Const :=
  types.mkConst (types.mkObject 5%positive (Some 1%positive) "c" 7%Z (types.ScopeAt 1%positive) int) (exact.Int 2%Z).
Definition obj_true : types.Const :=
  types.mkConst (types.mkObject 8%positive None "true" 0%Z types.Universe (types.Basic "untyped bool"))
                (exact.Bool true).
Definition obj_k : types.Const :=
  types.mkConst (types.mkObject 11%positive (Some 2%positive) "k" 95%Z (types.ScopeAt 3%positive) int) (exact.Int 3%Z).

Definition param_a : Param := mkParam "a" obj_a.
Definition expr_a : ast.Expr := ast.OtherExpr 101%positive.

Definition fn_lit : Function :=
  mkFunction "f$1" 20%Z [] []
    [mkBasicBlock [IOther; IDebugRef (mkDebugRef expr_a 25%Z (Some (VRegister 1%positive)))]]
    true.
Definition fn_f : Function := mkFunction "f" 10%Z [param_a] [fn_lit] [mkBasicBlock [IOther]] true.
Definition fn_m : Function := mkFunction "m" 40%Z [] [] [mkBasicBlock [IOther]] false.
Definition fn_init : Function := mkFunction "init" 0%Z [] [] [mkBasicBlock [IOther]] true.
Definition fn_wrapper : Function := mkFunction "wrapper" 0%Z [] [] [] false.

Definition global_g : Global := mkGlobal "g" obj_g.
Definition const_c : Const := mkConst 1000%positive (exact.Int 2%Z) int.

Definition pkg : Package :=
  mkPackage (Some fn_init)
    [("f", MFunction fn_f); ("T", MType T); ("g", MGlobal global_g);
     ("c", MNamedConst const_c)]
    (list_to_map [(1%positive, VFunction fn_f); (2%positive, VFunction fn_m);
                  (4%positive, VGlobal global_g); (5%positive, VConst const_c)]).

Definition prog : Program :=
  mkProgram (list_to_map [(1%positive, pkg)])
            (list_to_map [(9%positive, mkBuiltin obj_len)]).

Definition collaborators : Collaborators := {|
  MethodSet t :=
    match t with
    | types.Pointer (types.Named 1%positive) => [types.mkSelection obj_m]
    | types.Named 2%positive => [types.mkSelection obj_im]
    | _ => []
    end;
  recvType obj :=
    if Pos.eqb (types.addr obj) 2%positive then T
    else if Pos.eqb (types.addr obj) 12%positive then I
    else types.Basic "invalid";
  methodFunction _ _ := fn_wrapper
|}.

Definition ident_a : ast.Ident := ast.mkIdent "a" 25%Z.

(** Chains: to [a] in the literal, into the body of [m], to the value of
    [c], into the body of the blank function, and to the value of [g]. *)
Definition path_a : list ast.Node :=
  [ast.IdentNode ident_a; ast.OtherNode; ast.FuncLit (ast.mkFuncType 20%Z);
   ast.OtherNode; ast.FuncDecl None (ast.mkIdent "f" 10%Z); ast.File].
Definition path_m : list ast.Node :=
  [ast.OtherNode; ast.FuncDecl (Some (ast.mkFieldList 35%Z)) (ast.mkIdent "m" 40%Z);
   ast.File].
Definition path_c : list ast.Node :=
  [ast.OtherNode; ast.OtherNode; ast.GenDecl token.CONST; ast.File].
Definition path_blank : list ast.Node :=
  [ast.OtherNode; ast.FuncDecl None (ast.mkIdent "_" 70%Z); ast.File].
Definition path_g : list ast.Node :=
  [ast.OtherNode; ast.OtherNode; ast.GenDecl token.VAR; ast.File].

End Sample.

(** ** More of the sample package, and a checker to run [Check] on *)

Module SampleMore.

(** A second literal of [f], at position 30. *)
Definition fn_lit2 : Function := mkFunction "f$2" 30%Z [] [] [] true.

(** The chain to the parameter [a] where [f] declares it. *)
Definition ident_a_def : ast.Ident := ast.mkIdent "a" 12%Z.
Definition path_param : list ast.Node :=
  [ast.IdentNode ident_a_def; ast.OtherNode; ast.OtherNode; ast.OtherNode;
   ast.FuncDecl None (ast.mkIdent "f" 10%Z); ast.File].

(** The chain of the literal of [f], and the chain of the body of [f]. *)
Definition path_body : list ast.Node :=
  [ast.OtherNode; ast.FuncDecl None (ast.mkIdent "f" 10%Z); ast.File].
Definition path_lit : list ast.Node := ast.FuncLit (ast.mkFuncType 20%Z) :: path_body.

Definition debugref_a : DebugRef Function :=
  mkDebugRef Sample.expr_a 25%Z (Some (VRegister 1%positive)).
Definition block_lit : BasicBlock Function :=
  mkBasicBlock [IOther; IDebugRef debugref_a].

(** A checker that reports an error, with a partial package, when it is
    given no file. *)
Definition check (conf : unit) (path : string) (fset : unit) (files : list string)
  (info : option unit) : option (api.Package string) * option string :=
  match files with
  | [] => (Some (api.mkPackage path false), Some "no files")
  | _ => (Some (api.mkPackage path false), None)
  end.

End SampleMore.

(** The calls of the third branch of [FuncValue] on the sample package:
    [m] and [im] are methods, with receiver types [T] and [I]; the other
    function objects have no receiver, and asking for the type of the
    receiver dereferences nil. *)
Module SampleCalls.

Definition recvType_call (obj : types.Func) : result types.Type_ :=
  if Pos.eqb (types.addr obj) 2%positive then Ok Sample.T
  else if Pos.eqb (types.addr obj) 12%positive then Ok Sample.I
  else Panic NilDereference.

Definition Method_call (prog : Program) (meth : option types.Selection)
  : result (option (Value Function)) :=
  match meth with
  | Some _ => Ok (Some (VFunction Sample.fn_wrapper))
  | None => Ok None
  end.

End SampleCalls.

(** ** Properties *)

Section Properties.

Context {collab : Collaborators}.

(** *** The walk down the anonymous functions *)

Lemma descend_app f0 inner outer :
  descend f0 (inner ++ outer) = g ← descend f0 outer; descend g inner.
Proof.
  induction inner as [|n inner IH]; simpl.
  - destruct (descend f0 outer); reflexivity.
  - rewrite IH. destruct (descend f0 outer) as [g|]; simpl; reflexivity.
Qed.

Lemma Descends_descend f0 chain g :
  Descends f0 chain g <-> descend f0 chain = Some g.
Proof.
  split.
  - induction 1 as [|lit outer g anon _ IH Hanon|n outer g _ IH Hn]; simpl.
    + reflexivity.
    + rewrite IH. exact Hanon.
    + rewrite IH. destruct n as [| | |lit| |]; try reflexivity. destruct (Hn lit). reflexivity.
  - revert g. induction chain as [|n outer IH]; simpl; intros g Hg.
    + injection Hg as <-. constructor.
    + destruct (descend f0 outer) as [g'|] eqn:Hd; [|discriminate].
      destruct n; try (injection Hg as <-; apply Descends_other;
        [apply IH; reflexivity | discriminate]).
      eapply Descends_lit; [apply IH; reflexivity | exact Hg].
Qed.

Lemma findAnon_Some anons p anon :
  findAnon anons p = Some anon -> In anon anons /\ Function_Pos anon = p.
Proof.
  induction anons as [|a rest IH]; simpl; [discriminate|].
  destruct (Z.eqb_spec (Function_Pos a) p) as [Heq|Hne].
  - intros [= <-]. split; [left; reflexivity | exact Heq].
  - intros Hf. destruct (IH Hf) as [Hin Hp]. split; [right; exact Hin | exact Hp].
Qed.

Lemma findAnon_None anons p :
  findAnon anons p = None <->
  (forall anon, In anon anons -> Function_Pos anon <> p).
Proof.
  induction anons as [|a rest IH]; simpl.
  - split; [intros _ anon [] | reflexivity].
  - destruct (Z.eqb_spec (Function_Pos a) p) as [Heq|Hne].
    + split; [discriminate | intros Hall; destruct (Hall a (or_introl eq_refl) Heq)].
    + rewrite IH. split.
      * intros Hall anon [<-|Hin]; [exact Hne | exact (Hall anon Hin)].
      * intros Hall anon Hin. apply Hall. right. exact Hin.
Qed.

(** The loop of [EnclosingFunction], with [inner] still to visit and [outer]
    behind it, never indexes out of range and computes [descend]. *)
Lemma EnclosingFunction_loop_descend inner : forall outer fn n,
  n = length (inner ++ outer) ->
  EnclosingFunction_loop (inner ++ outer) n (length inner) (length outer) fn
  = Ok (descend fn inner).
Proof.
  induction inner as [|x inner IH] using rev_ind; intros outer fn n Hn.
  - reflexivity.
  - replace (length (inner ++ [x])) with (S (length inner))
      by (rewrite length_app; simpl; lia).
    simpl EnclosingFunction_loop.
    rewrite <- app_assoc in Hn |- *. simpl app in Hn |- *.
    assert (Hidx : (inner ++ x :: outer) !! (n - 1 - length outer)%nat = Some x).
    { subst n. rewrite length_app. simpl length.
      rewrite lookup_app_r by lia.
      replace (length inner + S (length outer) - 1 - length outer - length inner)%nat
        with 0%nat by lia.
      reflexivity. }
    rewrite Hidx. rewrite descend_app.
    pose proof (IH (x :: outer)) as IH'. simpl length in IH'.
    destruct x as [| | |lit| |]; cbn [descend mbind option_bind];
      try (rewrite IH' by exact Hn; reflexivity).
    destruct (findAnon (AnonFuncs fn) (ast.Func lit)) as [anon|]; [|reflexivity].
    rewrite IH' by exact Hn. reflexivity.
Qed.

Lemma EnclosingFunction_descend pkg path f0 :
  findEnclosingPackageLevelFunction pkg path = Ok (Some f0) ->
  EnclosingFunction pkg path = Ok (descend f0 path).
Proof.
  intros HA. unfold EnclosingFunction. rewrite HA. simpl.
  pose proof (EnclosingFunction_loop_descend path [] f0 (length path)) as Hloop.
  rewrite app_nil_r in Hloop. apply Hloop. reflexivity.
Qed.

Lemma descend_no_literal f0 inner :
  forallb (fun n => negb (isFuncLit n)) inner = true ->
  descend f0 inner = Some f0.
Proof.
  induction inner as [|n inner IH]; simpl; [reflexivity|].
  intros Hall. apply andb_prop in Hall as [Hn Hall].
  rewrite (IH Hall). destruct n; try reflexivity. discriminate.
Qed.

(** C1.  Once the enclosing package-level function [f0] of the chain is
    found: if the walk reaches a function literal in the current function
    [g] and no entry of [g]'s AnonFuncs is at the literal's position, the
    result of [EnclosingFunction] is nil, not an outer function; and if every
    literal of the chain has its entry, the result is the function the walk
    ends in, which for a chain through a literal is the entry found for the
    innermost one. *)
Theorem EnclosingFunction_innermost pkg path f0 :
  findEnclosingPackageLevelFunction pkg path = Ok (Some f0) ->
  (forall inner lit outer g,
      path = inner ++ ast.FuncLit lit :: outer ->
      Descends f0 outer g ->
      (forall anon, In anon (AnonFuncs g) -> Function_Pos anon <> ast.Func lit) ->
      EnclosingFunction pkg path = Ok None)
  /\
  (forall g,
      Descends f0 path g ->
      EnclosingFunction pkg path = Ok (Some g)
      /\ (forall inner lit outer g',
            path = inner ++ ast.FuncLit lit :: outer ->
            forallb (fun n => negb (isFuncLit n)) inner = true ->
            Descends f0 outer g' ->
            findAnon (AnonFuncs g') (ast.Func lit) = Some g)).
Proof.
  intros HA. rewrite (EnclosingFunction_descend _ _ _ HA). split.
  - intros inner lit outer g -> Hg Hnone.
    apply Descends_descend in Hg. apply findAnon_None in Hnone.
    rewrite descend_app. simpl. rewrite Hg, Hnone. reflexivity.
  - intros g Hg. apply Descends_descend in Hg. split.
    + rewrite Hg. reflexivity.
    + intros inner lit outer g' -> Hinner Hg'.
      apply Descends_descend in Hg'.
      rewrite descend_app in Hg. simpl in Hg. rewrite Hg' in Hg.
      destruct (findAnon (AnonFuncs g') (ast.Func lit)) as [anon|]; [|discriminate].
      simpl in Hg. rewrite (descend_no_literal _ _ Hinner) in Hg. exact Hg.
Qed.

(** C3.  Whenever [HasEnclosingFunction] returns false, for whatever package
    (a nil one included), [EnclosingFunction] returns nil. *)
Theorem HasEnclosingFunction_false_EnclosingFunction pkg path :
  HasEnclosingFunction pkg path = Ok false ->
  EnclosingFunction pkg path = Ok None.
Proof.
  unfold HasEnclosingFunction, EnclosingFunction.
  destruct (findEnclosingPackageLevelFunction pkg path) as [[fn|]|p];
    cbn [mbind result_bind].
  - discriminate.
  - reflexivity.
  - discriminate.
Qed.

(** C10.  [VarValue] reads the identifier from the head of the chain before
    any lookup: with an empty chain, or a head that is not an identifier, it
    panics, whatever the variable, the program and the package are. *)
Theorem VarValue_requires_ident prog obj pkg ref :
  (ref = [] \/ exists n rest, ref = n :: rest /\ forall id, n <> ast.IdentNode id) ->
  exists p, VarValue prog obj pkg ref = Panic p.
Proof.
  intros [->|(n & rest & -> & Hn)]; unfold VarValue; simpl.
  - eexists. reflexivity.
  - destruct n; try (eexists; reflexivity). destruct (Hn id). reflexivity.
Qed.

(** *** ValueForExpr *)

Lemma ValueForExpr_instrs_Some e instrs v :
  ValueForExpr_instrs e instrs = Some v ->
  exists ref, In (IDebugRef ref) instrs
              /\ ast.Expr_eqb (Expr ref) e = true /\ v = X ref.
Proof.
  induction instrs as [|[ref|] rest IH]; simpl; [discriminate| |].
  - destruct (ast.Expr_eqb (Expr ref) e) eqn:Heq.
    + intros [= <-]. exists ref. auto.
    + intros Hrest. destruct (IH Hrest) as (r & Hin & Hr). exists r. auto.
  - intros Hrest. destruct (IH Hrest) as (r & Hin & Hr). exists r. auto.
Qed.

Lemma ValueForExpr_instrs_None e instrs :
  ValueForExpr_instrs e instrs = None ->
  forall ref, In (IDebugRef ref) instrs -> ast.Expr_eqb (Expr ref) e = false.
Proof.
  induction instrs as [|[r|] rest IH]; simpl; intros Hn ref Hin.
  - destruct Hin.
  - destruct (ast.Expr_eqb (Expr r) e) eqn:Heq; [discriminate|].
    destruct Hin as [[= <-]|Hin]; [exact Heq | exact (IH Hn ref Hin)].
  - destruct Hin as [[=]|Hin]. exact (IH Hn ref Hin).
Qed.

Lemma ValueForExpr_blocks_cases e blocks :
  (exists b ref, In b blocks /\ In (IDebugRef ref) (Instrs b)
                 /\ ast.Expr_eqb (Expr ref) e = true
                 /\ ValueForExpr_blocks e blocks = X ref)
  \/ ((forall b ref, In b blocks -> In (IDebugRef ref) (Instrs b) ->
                     ast.Expr_eqb (Expr ref) e = false)
      /\ ValueForExpr_blocks e blocks = None).
Proof.
  induction blocks as [|b rest IH]; simpl.
  - right. split; [intros b ref [] | reflexivity].
  - destruct (ValueForExpr_instrs e (Instrs b)) as [v|] eqn:Hb.
    + left. destruct (ValueForExpr_instrs_Some _ _ _ Hb) as (ref & Hin & Heq & ->).
      exists b, ref. auto.
    + destruct IH as [(b' & ref & Hb' & Hin & Heq & Hv)|[Hall Hv]].
      * left. exists b', ref. auto.
      * right. split; [|exact Hv].
        intros b' ref [<-|Hb'] Hin.
        -- exact (ValueForExpr_instrs_None _ _ Hb ref Hin).
        -- exact (Hall b' ref Hb' Hin).
Qed.

(** C4.  Without debug information [ValueForExpr] returns nil.  With it, the
    result is the value [X] of a debug reference of one of [f]'s blocks whose
    expression is the unparenthesized [e], and it is nil when no block holds
    such a reference. *)
Theorem ValueForExpr_debug_refs f e :
  (debugInfo f = false -> ValueForExpr f e = None)
  /\
  (debugInfo f = true ->
     (exists b ref, In b (Blocks f) /\ In (IDebugRef ref) (Instrs b)
                    /\ ast.Expr_eqb (Expr ref) (unparen e) = true
                    /\ ValueForExpr f e = X ref)
     \/ ((forall b ref, In b (Blocks f) -> In (IDebugRef ref) (Instrs b) ->
                        ast.Expr_eqb (Expr ref) (unparen e) = false)
         /\ ValueForExpr f e = None)).
Proof.
  unfold ValueForExpr. split; intros ->.
  - reflexivity.
  - apply ValueForExpr_blocks_cases.
Qed.

Lemma unparen_parens ats e :
  unparen (fold_right ast.ParenExpr e ats) = unparen e.
Proof. induction ats as [|a ats IH]; simpl; [reflexivity | exact IH]. Qed.

(** C5.  Wrapping the expression in parenthesis nodes, however many and
    wherever they are allocated, does not change what [ValueForExpr]
    returns. *)
Theorem ValueForExpr_parens f e ats :
  ValueForExpr f (fold_right ast.ParenExpr e ats) = ValueForExpr f e.
Proof. unfold ValueForExpr. rewrite unparen_parens. reflexivity. Qed.

(** *** Lookups by object *)

Lemma Scope_eqb_eq a b : types.Scope_eqb a b = true <-> a = b.
Proof.
  destruct a, b; simpl; split; try congruence; try discriminate.
  - intros Heq. apply Pos.eqb_eq in Heq. congruence.
  - intros [= ->]. apply Pos.eqb_refl.
Qed.

Lemma packageLevelValue_Some prog obj v :
  packageLevelValue prog obj = Some v ->
  exists p pkg, types.Pkg obj = Some p /\ packages prog !! p = Some pkg
                /\ values pkg !! types.addr obj = Some v.
Proof.
  unfold packageLevelValue, Program_Package.
  destruct (types.Pkg obj) as [p|]; simpl; [|discriminate].
  destruct (packages prog !! p) as [pkg|] eqn:Hp; simpl; [|discriminate].
  intros Hv. exists p, pkg. auto.
Qed.

(** C6.  [ConstValue] never returns nil.  For a universal constant, and for
    a constant with no entry in the table of its package (the package has
    not been created, or the constant is not at package level), it allocates
    a Const with the value and the type of the object.  For a constant that
    is not universal and has a Const in the table of its created package, it
    returns that Const, the cached cell, and allocates nothing; this is the
    only Const it returns without allocating.  It panics in one case only,
    a table that holds for the constant a value that is not a Const; when the
    table holds Consts for constants, as [packageLevelValue] documents, every
    call returns a Const. *)
Theorem ConstValue_never_nil prog obj next :
  let o := types.object obj in
  let fresh := mkConst next (types.Val obj) (types.Typ o) in
  (forall next', ConstValue prog obj next <> Ok (None, next'))
  /\
  (types.Parent o = types.Universe \/ packageLevelValue prog o = None ->
   ConstValue prog obj next = Ok (Some fresh, Pos.succ next))
  /\
  (forall c, types.Parent o <> types.Universe ->
     packageLevelValue prog o = Some (VConst c) ->
     ConstValue prog obj next = Ok (Some c, next))
  /\
  (forall c next', ConstValue prog obj next = Ok (Some c, next') ->
     (c = fresh /\ next' = Pos.succ next)
     \/ (next' = next /\ types.Parent o <> types.Universe
         /\ exists p pkg, types.Pkg o = Some p /\ packages prog !! p = Some pkg
                          /\ values pkg !! types.addr o = Some (VConst c)))
  /\
  (forall p, ConstValue prog obj next = Panic p <->
     p = InterfaceConversion /\ types.Parent o <> types.Universe
     /\ exists v, packageLevelValue prog o = Some v /\ forall c, v <> VConst c)
  /\
  ((forall v, packageLevelValue prog o = Some v -> exists c, v = VConst c) ->
   exists c next', ConstValue prog obj next = Ok (Some c, next')).
Proof.
  intros o fresh. unfold ConstValue, NewConst. fold o.
  destruct (types.Scope_eqb (types.Parent o) types.Universe) eqn:Hu.
  - apply Scope_eqb_eq in Hu.
    split; [discriminate|]. split; [reflexivity|].
    split; [intros c Hnu; contradiction|].
    split; [intros c next' [= <- <-]; left; auto|].
    split; [|intros _; eauto].
    intros p. split; [discriminate | intros (_ & Hnu & _); contradiction].
  - assert (Hnu : types.Parent o <> types.Universe).
    { intros Heq. apply Scope_eqb_eq in Heq. congruence. }
    destruct (packageLevelValue prog o) as [v|] eqn:Hv.
    + destruct (packageLevelValue_Some _ _ _ Hv) as (k & pkg & Hk & Hpkg & Hval).
      assert (Hbad : (forall c, v <> VConst c) ->
                forall p, @Panic (option Const * Addr) InterfaceConversion = Panic p <->
                  p = InterfaceConversion /\ types.Parent o <> types.Universe
                  /\ exists v0, Some v = Some v0 /\ forall c, v0 <> VConst c).
      { intros Hv' p. split.
        - intros [= <-]. split; [reflexivity|]. split; [exact Hnu|]. eauto.
        - intros [-> _]. reflexivity. }
      destruct v as [f|g|c|b|q|r];
        try (split; [discriminate|];
             split; [intros [?|?]; [contradiction|discriminate]|];
             split; [intros c0 _ [=]|];
             split; [discriminate|];
             split; [apply Hbad; discriminate|];
             intros Hty; destruct (Hty _ eq_refl) as [c0 [=]]).
      split; [discriminate|].
      split; [intros [?|?]; [contradiction|discriminate]|].
      split; [intros c0 _ [= <-]; reflexivity|].
      split.
      { intros c' next' [= <- <-]. right. split; [reflexivity|].
        split; [exact Hnu|]. exists k, pkg. auto. }
      split; [|intros _; eauto].
      intros p. split; [discriminate|].
      intros (_ & _ & v0 & [= <-] & Hv0). destruct (Hv0 c eq_refl).
    + split; [discriminate|]. split; [reflexivity|].
      split; [intros c _ [=]|].
      split; [intros c next' [= <- <-]; left; auto|].
      split; [|intros _; eauto].
      intros p. split; [discriminate | intros (_ & _ & v0 & [=] & _)].
Qed.

(** When the two calls return, [FuncValue_calls] is [FuncValue]. *)
Lemma FuncValue_calls_returning prog obj :
  FuncValue_calls (fun f => Ok (recvType f)) (fun p m => Ok (Method p m)) prog obj
  = Ok (FuncValue prog obj).
Proof.
  unfold FuncValue_calls, FuncValue.
  destruct (builtins prog !! types.addr obj); [reflexivity|].
  destruct (packageLevelValue prog obj); reflexivity.
Qed.

(** C9.  [FuncValue] is not total.  The first two branches return: the
    entry of the built-in table, else the value the created package holds.
    For every other object, a function of a package that has not been
    created included, the third branch runs without a test that the object
    is a method or that a binding was found: a panic of [recvType] on the
    object is the outcome of [FuncValue], and otherwise the outcome is that
    of [Program.Method] on the binding looked up, nil when there is none. *)
Theorem FuncValue_third_branch_unguarded recvType_call Method_call prog obj :
  builtins prog !! types.addr obj = None ->
  packageLevelValue prog obj = None ->
  (forall p, recvType_call obj = Panic p ->
             FuncValue_calls recvType_call Method_call prog obj = Panic p)
  /\ (forall T, recvType_call obj = Ok T ->
        FuncValue_calls recvType_call Method_call prog obj
        = Method_call prog (Lookup (MethodSet T) (types.Pkg obj) (types.Name obj)))
  /\ (Program_Package prog (types.Pkg obj) = None ->
      forall p, recvType_call obj = Panic p ->
      forall v, FuncValue_calls recvType_call Method_call prog obj <> Ok v).
Proof.
  intros Hb Hv. unfold FuncValue_calls. rewrite Hb, Hv.
  split; [|split].
  - intros p ->. reflexivity.
  - intros T ->. reflexivity.
  - intros _ p -> v. discriminate.
Qed.

(** *** VarValue *)

(** C7.  [ref] is the path to an identifier, as [VarValue] requires of its
    callers.  For a variable that no created package holds a value for: when
    [EnclosingFunction] on the package and the chain returns nil, [VarValue]
    returns nil and does not panic. *)
Theorem VarValue_not_found_propagates prog obj pkg ref id rest :
  ref = ast.IdentNode id :: rest ->
  packageLevelValue prog obj = None ->
  EnclosingFunction pkg ref = Ok None ->
  VarValue prog obj pkg ref = Ok None.
Proof.
  intros -> Hv Hfn. unfold VarValue. simpl lookup. rewrite Hv, Hfn. reflexivity.
Qed.

(** *** findNamedFunc and the classification *)

Lemma findNamedFunc_mset_Some pkg pos mset r :
  findNamedFunc_mset pkg pos mset = Some r ->
  exists sel, In sel mset /\ types.Pos (types.Obj sel) = pos
    /\ r = match values pkg !! types.addr (types.Obj sel) with
           | Some (VFunction f) => Ok (Some f)
           | _ => Panic InterfaceConversion
           end.
Proof.
  induction mset as [|sel rest IH]; simpl; [discriminate|].
  destruct (Z.eqb_spec (types.Pos (types.Obj sel)) pos) as [Heq|Hne].
  - intros [= <-]. exists sel. auto.
  - intros Hr. destruct (IH Hr) as (s & Hin & Hs). exists s. auto.
Qed.

Lemma findNamedFunc_mset_None pkg pos mset :
  findNamedFunc_mset pkg pos mset = None <->
  (forall sel, In sel mset -> types.Pos (types.Obj sel) <> pos).
Proof.
  induction mset as [|sel rest IH]; simpl.
  - split; [intros _ s [] | reflexivity].
  - destruct (Z.eqb_spec (types.Pos (types.Obj sel)) pos) as [Heq|Hne].
    + split; [discriminate | intros Hall; destruct (Hall sel (or_introl eq_refl) Heq)].
    + rewrite IH. split.
      * intros Hall s [<-|Hin]; [exact Hne | exact (Hall s Hin)].
      * intros Hall s Hin. apply Hall. right. exact Hin.
Qed.

(** A function that [findNamedFunc] returns is a function member at the
    position, or the table entry of a method at the position in the method
    set of the pointer to a type member. *)
Lemma findNamedFunc_members_Some pkg pos mems fn :
  findNamedFunc_members pkg pos mems = Ok (Some fn) ->
  (exists s, In (s, MFunction fn) mems /\ Function_Pos fn = pos)
  \/ (exists s T sel, In (s, MType T) mems
        /\ In sel (MethodSet (types.Pointer T))
        /\ types.Pos (types.Obj sel) = pos
        /\ values pkg !! types.addr (types.Obj sel) = Some (VFunction fn)).
Proof.
  induction mems as [|[s mem] rest IH]; simpl; [discriminate|].
  assert (Hrest : findNamedFunc_members pkg pos rest = Ok (Some fn) ->
    (exists s0, ((s, mem) = (s0, MFunction fn) \/ In (s0, MFunction fn) rest)
                /\ Function_Pos fn = pos)
    \/ (exists s0 T sel, ((s, mem) = (s0, MType T) \/ In (s0, MType T) rest)
          /\ In sel (MethodSet (types.Pointer T))
          /\ types.Pos (types.Obj sel) = pos
          /\ values pkg !! types.addr (types.Obj sel) = Some (VFunction fn))).
  { intros Hr. destruct (IH Hr) as [(s0 & Hin & Hp)|(s0 & T & sel & Hin & Hsel)].
    - left. exists s0. auto.
    - right. exists s0, T, sel. auto. }
  destruct mem as [f|T|g|c]; try exact Hrest.
  - destruct (Z.eqb_spec (Function_Pos f) pos) as [Heq|Hne]; [|exact Hrest].
    intros [= <-]. left. exists s. auto.
  - destruct (findNamedFunc_mset pkg pos (MethodSet (types.Pointer T)))
      as [r|] eqn:Hm; [|exact Hrest].
    intros ->. destruct (findNamedFunc_mset_Some _ _ _ _ Hm) as (sel & Hin & Hp & Hr).
    right. exists s, T, sel. split; [left; reflexivity|]. split; [exact Hin|].
    split; [exact Hp|].
    destruct (values pkg !! types.addr (types.Obj sel)) as [[f| | | | |]|];
      try discriminate.
    injection Hr as ->. reflexivity.
Qed.

(** Conversely the method is found as soon as some type member has it in its
    method set and the table holds its function. *)
Lemma findNamedFunc_members_method pkg pos mems fn :
  (forall s f, In (s, MFunction f) mems -> Function_Pos f <> pos) ->
  (exists s T sel, In (s, MType T) mems /\ In sel (MethodSet (types.Pointer T))
                   /\ types.Pos (types.Obj sel) = pos) ->
  (forall s T sel, In (s, MType T) mems -> In sel (MethodSet (types.Pointer T)) ->
                   types.Pos (types.Obj sel) = pos ->
                   values pkg !! types.addr (types.Obj sel) = Some (VFunction fn)) ->
  findNamedFunc_members pkg pos mems = Ok (Some fn).
Proof.
  induction mems as [|[s mem] rest IH]; simpl; intros Hfun Hex Hall.
  - destruct Hex as (? & ? & ? & [] & _).
  - assert (Hcont : (forall T, mem = MType T ->
                       findNamedFunc_mset pkg pos (MethodSet (types.Pointer T)) = None) ->
                    findNamedFunc_members pkg pos rest = Ok (Some fn)).
    { intros Hmem. apply IH.
      - intros s0 f Hin. apply (Hfun s0 f). right. exact Hin.
      - destruct Hex as (s0 & T & sel & [[= -> ->]|Hin] & Hsel & Hp).
        + pose proof (Hmem T eq_refl) as Hnone.
          destruct (proj1 (findNamedFunc_mset_None _ _ _) Hnone sel Hsel Hp).
        + exists s0, T, sel. auto.
      - intros s0 T sel Hin. apply (Hall s0 T sel). right. exact Hin. }
    destruct mem as [f|T|g|c]; try (apply Hcont; discriminate).
    + destruct (Z.eqb_spec (Function_Pos f) pos) as [Heq|Hne].
      * destruct (Hfun s f (or_introl eq_refl) Heq).
      * apply Hcont. discriminate.
    + destruct (findNamedFunc_mset pkg pos (MethodSet (types.Pointer T)))
        as [r|] eqn:Hm.
      * destruct (findNamedFunc_mset_Some _ _ _ _ Hm) as (sel & Hin & Hp & ->).
        rewrite (Hall s T sel (or_introl eq_refl) Hin Hp). reflexivity.
      * apply Hcont. intros T' [= <-]. exact Hm.
Qed.

(** [findNamedFunc] reads the method sets and the table of the package and
    nothing else of the collaborators: it never goes through
    [Program.Method]. *)
Lemma findNamedFunc_members_no_Method (C' : Collaborators) pkg pos mems :
  @MethodSet C' = @MethodSet collab ->
  @findNamedFunc_members C' pkg pos mems
  = @findNamedFunc_members collab pkg pos mems.
Proof.
  intros Hms. induction mems as [|[s mem] rest IH]; simpl; [reflexivity|].
  rewrite IH, Hms. reflexivity.
Qed.

(** The code of [findEnclosingPackageLevelFunction] is the classifier of the
    specification followed by the lookup for its class. *)
Lemma findEnclosingPackageLevelFunction_classify pkg path :
  findEnclosingPackageLevelFunction pkg path =
  match ClassifyEnclosingTopLevel path with
  | PackageInitializer => Package_init pkg
  | NamedDeclaration p => findNamedFunc pkg p
  | NoEnclosing => Ok None
  end.
Proof.
  unfold findEnclosingPackageLevelFunction, ClassifyEnclosingTopLevel.
  destruct (Nat.leb_spec 2 (length path)) as [Hle|Hlt].
  - replace (length path <? 2)%nat with false
      by (symmetry; apply Nat.ltb_ge; exact Hle).
    destruct (path !! (length path - 2)%nat) as [n|] eqn:Hn.
    + destruct n as [|tok|recv nm|lit|id|]; try reflexivity.
      * destruct tok; cbn [token.Token_eqb andb]; try reflexivity.
        destruct (3 <=? length path)%nat; reflexivity.
      * destruct recv as [r|]; simpl; [reflexivity|].
        destruct (String.eqb (ast.Name nm) "init"); reflexivity.
    + apply lookup_ge_None in Hn. lia.
  - replace (length path <? 2)%nat with true
      by (symmetry; apply Nat.ltb_lt; exact Hlt).
    reflexivity.
Qed.

(** C8.  For a chain under the declaration of a method (a function
    declaration with a receiver) whose name is at [p], where no function
    member of the package is at [p]: the enclosing package-level function is
    what [findNamedFunc] finds for [p]; a function it returns is the entry,
    in the table of the package, of a method declared at [p] of the method
    set of the pointer to a type member; that entry is returned whenever a
    type member has the method and the table holds its function; and nothing
    of this goes through [Program.Method], which builds the wrappers. *)
Theorem findNamedFunc_declared_method pkg path recv nm :
  (2 <= length path)%nat ->
  path !! (length path - 2)%nat = Some (ast.FuncDecl (Some recv) nm) ->
  (forall s f, In (s, MFunction f) (Members pkg) ->
               Function_Pos f <> ast.NamePos nm) ->
  findEnclosingPackageLevelFunction (Some pkg) path
  = findNamedFunc (Some pkg) (ast.NamePos nm)
  /\
  (forall fn, findEnclosingPackageLevelFunction (Some pkg) path = Ok (Some fn) ->
     exists s T sel, In (s, MType T) (Members pkg)
       /\ In sel (MethodSet (types.Pointer T))
       /\ types.Pos (types.Obj sel) = ast.NamePos nm
       /\ values pkg !! types.addr (types.Obj sel) = Some (VFunction fn))
  /\
  (forall fn,
     (exists s T sel, In (s, MType T) (Members pkg)
        /\ In sel (MethodSet (types.Pointer T))
        /\ types.Pos (types.Obj sel) = ast.NamePos nm) ->
     (forall s T sel, In (s, MType T) (Members pkg) ->
        In sel (MethodSet (types.Pointer T)) ->
        types.Pos (types.Obj sel) = ast.NamePos nm ->
        values pkg !! types.addr (types.Obj sel) = Some (VFunction fn)) ->
     findEnclosingPackageLevelFunction (Some pkg) path = Ok (Some fn))
  /\
  (forall C' : Collaborators, @MethodSet C' = @MethodSet collab ->
     @findEnclosingPackageLevelFunction C' (Some pkg) path
     = @findEnclosingPackageLevelFunction collab (Some pkg) path).
Proof.
  intros Hlen Hdecl Hfun.
  assert (HA : forall C : Collaborators,
             @findEnclosingPackageLevelFunction C (Some pkg) path
             = @findNamedFunc C (Some pkg) (ast.NamePos nm)).
  { intros C. unfold findEnclosingPackageLevelFunction. rewrite Hdecl.
    replace (2 <=? length path)%nat with true
      by (symmetry; apply Nat.leb_le; exact Hlen).
    reflexivity. }
  split; [apply HA|]. split; [|split].
  - intros fn. rewrite HA. unfold findNamedFunc. intros Hfn.
    destruct (findNamedFunc_members_Some _ _ _ _ Hfn) as [(s & Hin & Hp)|Hm].
    + destruct (Hfun s fn Hin Hp).
    + exact Hm.
  - intros fn Hex Hall. rewrite HA. unfold findNamedFunc.
    apply findNamedFunc_members_method; assumption.
  - intros C' Hms. rewrite !HA. unfold findNamedFunc.
    apply findNamedFunc_members_no_Method. exact Hms.
Qed.

(** *** HasEnclosingFunction *)

Lemma findNamedFunc_mset_unbuilt pkg pos mset :
  findNamedFunc_mset (unbuiltPackage pkg) pos mset
  = option_map unbuiltResult (findNamedFunc_mset pkg pos mset).
Proof.
  induction mset as [|sel rest IH]; simpl; [reflexivity|].
  destruct (Z.eqb (types.Pos (types.Obj sel)) pos); [|exact IH].
  simpl. f_equal. rewrite lookup_fmap.
  destruct (values pkg !! types.addr (types.Obj sel)) as [[f| | | | |]|];
    reflexivity.
Qed.

Lemma findNamedFunc_members_unbuilt pkg pos mems :
  findNamedFunc_members (unbuiltPackage pkg) pos (prod_map id unbuiltMember <$> mems)
  = unbuiltResult (findNamedFunc_members pkg pos mems).
Proof.
  induction mems as [|[s mem] rest IH]; simpl; [reflexivity|].
  destruct mem as [f|T|g|c]; simpl; try exact IH.
  - destruct (Z.eqb (Function_Pos f) pos); [reflexivity | exact IH].
  - rewrite findNamedFunc_mset_unbuilt.
    destruct (findNamedFunc_mset pkg pos (MethodSet (types.Pointer T)))
      as [r|]; [reflexivity | exact IH].
Qed.

Lemma findEnclosingPackageLevelFunction_unbuilt pkg path :
  findEnclosingPackageLevelFunction (unbuiltPackage <$> pkg) path
  = unbuiltResult (findEnclosingPackageLevelFunction pkg path).
Proof.
  rewrite !findEnclosingPackageLevelFunction_classify.
  destruct (ClassifyEnclosingTopLevel path) as [|p|]; [| |reflexivity].
  - destruct pkg as [pkg|]; reflexivity.
  - destruct pkg as [pkg|]; [|reflexivity].
    apply findNamedFunc_members_unbuilt.
Qed.

(** C2, amended.  [HasEnclosingFunction] returns true only for a chain whose
    classification is not "none", and false whenever it is "none".  For a
    chain classified "package initializer" it reports whether the package
    has its initializer, and for a "named declaration" at [p] whether
    [findNamedFunc] finds a function for [p] in the package.  The result is
    the same for a package and for that package before its functions are
    built. *)
Theorem HasEnclosingFunction_classification pkg path :
  (HasEnclosingFunction pkg path = Ok true ->
   ClassifyEnclosingTopLevel path <> NoEnclosing)
  /\
  (ClassifyEnclosingTopLevel path = NoEnclosing ->
   HasEnclosingFunction pkg path = Ok false)
  /\
  (ClassifyEnclosingTopLevel path = PackageInitializer ->
   HasEnclosingFunction pkg path
   = fn ← Package_init pkg; Ok (bool_decide (fn ≠ None)))
  /\
  (forall p, ClassifyEnclosingTopLevel path = NamedDeclaration p ->
   HasEnclosingFunction pkg path
   = fn ← findNamedFunc pkg p; Ok (bool_decide (fn ≠ None)))
  /\
  HasEnclosingFunction (unbuiltPackage <$> pkg) path = HasEnclosingFunction pkg path.
Proof.
  unfold HasEnclosingFunction. split; [|split; [|split; [|split]]].
  - rewrite findEnclosingPackageLevelFunction_classify.
    destruct (ClassifyEnclosingTopLevel path); try discriminate.
  - rewrite findEnclosingPackageLevelFunction_classify. intros ->. reflexivity.
  - rewrite findEnclosingPackageLevelFunction_classify. intros ->. reflexivity.
  - rewrite findEnclosingPackageLevelFunction_classify. intros p ->. reflexivity.
  - rewrite findEnclosingPackageLevelFunction_unbuilt.
    destruct (findEnclosingPackageLevelFunction pkg path) as [[fn|]|e];
      reflexivity.
Qed.

End Properties.

(** ** Further properties of the code *)

Section MoreProperties.

Context {collab : Collaborators}.

(** *** EnclosingFunction and HasEnclosingFunction *)

(** X1.  The walk down the anonymous functions never panics: whatever the
    package, [EnclosingFunction] panics exactly when [HasEnclosingFunction]
    does, with the same panic, and it returns a function only where
    [HasEnclosingFunction] returns true. *)
Theorem EnclosingFunction_panics_as_HasEnclosingFunction pkg path :
  (forall p, EnclosingFunction pkg path = Panic p <->
             HasEnclosingFunction pkg path = Panic p)
  /\ (forall g, EnclosingFunction pkg path = Ok (Some g) ->
                HasEnclosingFunction pkg path = Ok true).
Proof.
  destruct (findEnclosingPackageLevelFunction pkg path) as [[f0|]|q] eqn:HA.
  - rewrite (EnclosingFunction_descend _ _ _ HA).
    unfold HasEnclosingFunction. rewrite HA. cbn [mbind result_bind].
    split; [intros p; split; discriminate | reflexivity].
  - unfold EnclosingFunction, HasEnclosingFunction. rewrite HA.
    cbn [mbind result_bind]. split; [intros p; split; discriminate | discriminate].
  - unfold EnclosingFunction, HasEnclosingFunction. rewrite HA.
    cbn [mbind result_bind].
    split; [intros p; split; intros [= ->]; reflexivity | discriminate].
Qed.

(** X2.  On a chain without function literals [EnclosingFunction] is the
    lookup of the enclosing package-level function, panics included. *)
Theorem EnclosingFunction_without_literals pkg path :
  forallb (fun n => negb (isFuncLit n)) path = true ->
  EnclosingFunction pkg path = findEnclosingPackageLevelFunction pkg path.
Proof.
  intros Hno.
  destruct (findEnclosingPackageLevelFunction pkg path) as [[f0|]|q] eqn:HA.
  - rewrite (EnclosingFunction_descend _ _ _ HA).
    rewrite (descend_no_literal _ _ Hno). reflexivity.
  - unfold EnclosingFunction. rewrite HA. reflexivity.
  - unfold EnclosingFunction. rewrite HA. reflexivity.
Qed.

Lemma descend_NestedAt f0 chain g :
  descend f0 chain = Some g -> NestedAt (literals chain) f0 g.
Proof.
  revert g. induction chain as [|n outer IH]; intros g; simpl.
  - intros [= <-]. constructor.
  - destruct (descend f0 outer) as [g'|]; [|discriminate].
    specialize (IH g' eq_refl).
    destruct n as [| | |lit| |]; try (intros [= <-]; exact IH).
    intros Hanon. apply findAnon_Some in Hanon as [Hin _].
    unfold literals. simpl. eapply NestedAt_S; [exact IH | exact Hin].
Qed.

(** X3.  The function [EnclosingFunction] returns is nested in the
    enclosing package-level function exactly as deep as the chain has
    function literals: it is that function itself, or an anonymous function
    of it, of one of those, and so on. *)
Theorem EnclosingFunction_nesting_depth pkg path f0 g :
  findEnclosingPackageLevelFunction pkg path = Ok (Some f0) ->
  EnclosingFunction pkg path = Ok (Some g) ->
  NestedAt (literals path) f0 g.
Proof.
  intros HA. rewrite (EnclosingFunction_descend _ _ _ HA).
  intros [= Hd]. apply descend_NestedAt. exact Hd.
Qed.

Lemma findEnclosingPackageLevelFunction_cons pkg n rest :
  (3 <= length rest)%nat ->
  findEnclosingPackageLevelFunction pkg (n :: rest)
  = findEnclosingPackageLevelFunction pkg rest.
Proof.
  intros Hlen. unfold findEnclosingPackageLevelFunction.
  cbn [length].
  replace (2 <=? S (length rest))%nat with true
    by (symmetry; apply Nat.leb_le; lia).
  replace (2 <=? length rest)%nat with true
    by (symmetry; apply Nat.leb_le; lia).
  replace (3 <=? S (length rest))%nat with true
    by (symmetry; apply Nat.leb_le; lia).
  replace (3 <=? length rest)%nat with true
    by (symmetry; apply Nat.leb_le; lia).
  replace (S (length rest) - 2)%nat with (S (length rest - 2)) by lia.
  reflexivity.
Qed.

(** X4.  From the chain of a node to the chain of a child.  Below the
    declaration level, the result for a chain with one more node in front is
    the result for the chain itself when that is nil or a panic; otherwise
    the same function when the new node is no function literal, and the entry
    of its AnonFuncs at the literal's position when it is one. *)
Theorem EnclosingFunction_child_chain pkg n rest :
  (3 <= length rest)%nat ->
  EnclosingFunction pkg (n :: rest)
  = match EnclosingFunction pkg rest with
    | Ok (Some g) =>
        Ok (match n with
            | ast.FuncLit lit => findAnon (AnonFuncs g) (ast.Func lit)
            | _ => Some g
            end)
    | r => r
    end.
Proof.
  intros Hlen.
  pose proof (findEnclosingPackageLevelFunction_cons pkg n rest Hlen) as Hcons.
  destruct (findEnclosingPackageLevelFunction pkg rest) as [[f0|]|q] eqn:HA.
  - rewrite (EnclosingFunction_descend _ _ _ HA).
    rewrite (EnclosingFunction_descend _ _ _ Hcons).
    simpl descend. destruct (descend f0 rest) as [g|]; reflexivity.
  - unfold EnclosingFunction. rewrite Hcons, HA. reflexivity.
  - unfold EnclosingFunction. rewrite Hcons, HA. reflexivity.
Qed.

Lemma findEnclosingPackageLevelFunction_decl pkg inner d root :
  findEnclosingPackageLevelFunction pkg (inner ++ [d; root])
  = match d with
    | ast.GenDecl Tok =>
        if token.Token_eqb Tok token.VAR && (1 <=? length inner)%nat
        then Package_init pkg else Ok None
    | ast.FuncDecl Recv Name =>
        if bool_decide (Recv = None) && String.eqb (ast.Name Name) "init"
        then Package_init pkg
        else findNamedFunc pkg (ast.NamePos Name)
    | _ => Ok None
    end.
Proof.
  unfold findEnclosingPackageLevelFunction.
  rewrite length_app. cbn [length].
  replace (2 <=? length inner + 2)%nat with true
    by (symmetry; apply Nat.leb_le; lia).
  replace (length inner + 2 - 2)%nat with (length inner + 0)%nat by lia.
  rewrite lookup_app_r by lia.
  replace (length inner + 0 - length inner)%nat with 0%nat by lia.
  cbn [lookup list_lookup].
  destruct d as [|tok| | | |]; try reflexivity.
  replace (3 <=? length inner + 2)%nat with (1 <=? length inner)%nat; [reflexivity|].
  destruct (Nat.leb_spec 1 (length inner)), (Nat.leb_spec 3 (length inner + 2));
    try reflexivity; lia.
Qed.

(** X5.  The enclosing package-level function depends on the declaration
    under the root and on nothing else of the chain, but whether there is a
    node below the declaration: the root and the nodes below the declaration
    are not inspected. *)
Theorem findEnclosingPackageLevelFunction_declaration_only pkg d root root' :
  (forall inner inner', inner <> [] -> inner' <> [] ->
     findEnclosingPackageLevelFunction pkg (inner ++ [d; root])
     = findEnclosingPackageLevelFunction pkg (inner' ++ [d; root']))
  /\ findEnclosingPackageLevelFunction pkg [d; root]
     = findEnclosingPackageLevelFunction pkg [d; root'].
Proof.
  split.
  - intros inner inner' Hi Hi'.
    rewrite !findEnclosingPackageLevelFunction_decl.
    destruct inner; [contradiction|]. destruct inner'; [contradiction|].
    reflexivity.
  - exact (eq_trans (findEnclosingPackageLevelFunction_decl pkg [] d root)
             (eq_sym (findEnclosingPackageLevelFunction_decl pkg [] d root'))).
Qed.

(** X6.  The boundary of a variable declaration: the chain of the
    declaration node itself has no enclosing function, whatever the keyword,
    while every node below a [var] declaration is enclosed by the package
    initializer. *)
Theorem findEnclosingPackageLevelFunction_var_boundary pkg root :
  (forall tok, findEnclosingPackageLevelFunction pkg [ast.GenDecl tok; root] = Ok None)
  /\ (forall n inner,
        findEnclosingPackageLevelFunction pkg
          (n :: inner ++ [ast.GenDecl token.VAR; root]) = Package_init pkg)
  /\ (forall tok inner, tok <> token.VAR ->
        findEnclosingPackageLevelFunction pkg (inner ++ [ast.GenDecl tok; root])
        = Ok None).
Proof.
  split; [|split].
  - intros tok.
    pose proof (findEnclosingPackageLevelFunction_decl pkg [] (ast.GenDecl tok) root)
      as E.
    cbn [app] in E. rewrite E. destruct tok; reflexivity.
  - intros n inner.
    pose proof (findEnclosingPackageLevelFunction_decl pkg (n :: inner)
                  (ast.GenDecl token.VAR) root) as E.
    cbn [app] in E. rewrite E. reflexivity.
  - intros tok inner Htok. rewrite findEnclosingPackageLevelFunction_decl.
    destruct tok; try reflexivity. contradiction.
Qed.

(** X7.  With a nil package [EnclosingFunction] never returns a function
    and its only panic is the nil dereference: it returns nil on a chain of
    fewer than two nodes, and panics on every chain under a function
    declaration and on every chain of a node below a [var] declaration. *)
Theorem EnclosingFunction_nil_package :
  (forall path g, EnclosingFunction None path <> Ok (Some g))
  /\ (forall path p, EnclosingFunction None path = Panic p -> p = NilDereference)
  /\ (forall path, (length path < 2)%nat -> EnclosingFunction None path = Ok None)
  /\ (forall inner recv nm root,
        EnclosingFunction None (inner ++ [ast.FuncDecl recv nm; root])
        = Panic NilDereference)
  /\ (forall n inner root,
        EnclosingFunction None (n :: inner ++ [ast.GenDecl token.VAR; root])
        = Panic NilDereference).
Proof.
  split; [|split; [|split; [|split]]].
  - intros path g. unfold EnclosingFunction.
    rewrite findEnclosingPackageLevelFunction_classify.
    destruct (ClassifyEnclosingTopLevel path); discriminate.
  - intros path p. unfold EnclosingFunction.
    rewrite findEnclosingPackageLevelFunction_classify.
    destruct (ClassifyEnclosingTopLevel path); cbn; congruence.
  - intros path Hlen. unfold EnclosingFunction, findEnclosingPackageLevelFunction.
    replace (2 <=? length path)%nat with false
      by (symmetry; apply Nat.leb_gt; exact Hlen).
    reflexivity.
  - intros inner recv nm root. unfold EnclosingFunction.
    rewrite findEnclosingPackageLevelFunction_decl.
    destruct (bool_decide (recv = None) && String.eqb (ast.Name nm) "init");
      reflexivity.
  - intros n inner root. unfold EnclosingFunction.
    pose proof (findEnclosingPackageLevelFunction_decl None (n :: inner)
                  (ast.GenDecl token.VAR) root) as E.
    cbn [app] in E. rewrite E. reflexivity.
Qed.

(** *** findNamedFunc *)

Lemma findNamedFunc_members_Panic pkg pos mems p :
  findNamedFunc_members pkg pos mems = Panic p ->
  p = InterfaceConversion
  /\ exists s T sel, In (s, MType T) mems
       /\ In sel (MethodSet (types.Pointer T))
       /\ types.Pos (types.Obj sel) = pos
       /\ forall f, values pkg !! types.addr (types.Obj sel) <> Some (VFunction f).
Proof.
  induction mems as [|[s mem] rest IH]; simpl; [discriminate|].
  assert (Hrest : findNamedFunc_members pkg pos rest = Panic p ->
    p = InterfaceConversion
    /\ exists s0 T sel, ((s, mem) = (s0, MType T) \/ In (s0, MType T) rest)
         /\ In sel (MethodSet (types.Pointer T))
         /\ types.Pos (types.Obj sel) = pos
         /\ forall f, values pkg !! types.addr (types.Obj sel) <> Some (VFunction f)).
  { intros Hr. destruct (IH Hr) as (Hp & s0 & T & sel & Hin & Hsel).
    split; [exact Hp|]. exists s0, T, sel. auto. }
  destruct mem as [f|T|g|c]; try exact Hrest.
  - destruct (Z.eqb (Function_Pos f) pos); [discriminate | exact Hrest].
  - destruct (findNamedFunc_mset pkg pos (MethodSet (types.Pointer T)))
      as [r|] eqn:Hm; [|exact Hrest].
    intros ->. destruct (findNamedFunc_mset_Some _ _ _ _ Hm) as (sel & Hin & Hp & Hr).
    destruct (values pkg !! types.addr (types.Obj sel)) as [v|] eqn:Hv.
    + destruct v; try discriminate; injection Hr as ->;
        (split; [reflexivity|]; exists s, T, sel;
         split; [left; reflexivity|]; split; [exact Hin|]; split; [exact Hp|];
         rewrite Hv; discriminate).
    + injection Hr as ->. split; [reflexivity|]. exists s, T, sel.
      split; [left; reflexivity|]. split; [exact Hin|]. split; [exact Hp|].
      rewrite Hv. discriminate.
Qed.

(** X8.  [findNamedFunc] panics in two situations only: on a nil package
    (nil dereference), and when a method of the method set of the pointer to
    a type member is declared at the position while the table of the package
    holds no function for it (failed type assertion). *)
Theorem findNamedFunc_panics pkg pos p :
  findNamedFunc pkg pos = Panic p ->
  (pkg = None /\ p = NilDereference)
  \/ (exists pk, pkg = Some pk /\ p = InterfaceConversion
        /\ exists s T sel, In (s, MType T) (Members pk)
             /\ In sel (MethodSet (types.Pointer T))
             /\ types.Pos (types.Obj sel) = pos
             /\ forall f, values pk !! types.addr (types.Obj sel)
                          <> Some (VFunction f)).
Proof.
  destruct pkg as [pk|]; simpl.
  - intros Hp. right. exists pk. split; [reflexivity|].
    exact (findNamedFunc_members_Panic _ _ _ _ Hp).
  - intros [= <-]. left. auto.
Qed.

(** Under the two uniqueness conditions the loop over the members returns
    the function exactly when some member declares it, whatever the order. *)
Lemma findNamedFunc_members_unique pkg pos mems fn :
  (forall s f, In (s, MFunction f) mems -> Function_Pos f = pos -> f = fn) ->
  (forall s T sel, In (s, MType T) mems -> In sel (MethodSet (types.Pointer T)) ->
      types.Pos (types.Obj sel) = pos ->
      values pkg !! types.addr (types.Obj sel) = Some (VFunction fn)) ->
  (findNamedFunc_members pkg pos mems = Ok (Some fn)
   /\ ((exists s f, In (s, MFunction f) mems /\ Function_Pos f = pos)
       \/ (exists s T sel, In (s, MType T) mems
             /\ In sel (MethodSet (types.Pointer T))
             /\ types.Pos (types.Obj sel) = pos)))
  \/ (findNamedFunc_members pkg pos mems = Ok None
      /\ (forall s f, In (s, MFunction f) mems -> Function_Pos f <> pos)
      /\ (forall s T sel, In (s, MType T) mems ->
            In sel (MethodSet (types.Pointer T)) ->
            types.Pos (types.Obj sel) <> pos)).
Proof.
  induction mems as [|[s mem] rest IH]; intros Hfun Hmeth.
  - right. simpl. split; [reflexivity|]. split; [intros ? ? [] | intros ? ? ? []].
  - assert (IH' := IH (fun s0 f Hin => Hfun s0 f (or_intror Hin))
                      (fun s0 T sel Hin => Hmeth s0 T sel (or_intror Hin))).
    clear IH.
    assert (Hskip :
      findNamedFunc_members pkg pos ((s, mem) :: rest)
      = findNamedFunc_members pkg pos rest ->
      (forall f, mem = MFunction f -> Function_Pos f <> pos) ->
      (forall T sel, mem = MType T -> In sel (MethodSet (types.Pointer T)) ->
                     types.Pos (types.Obj sel) <> pos) ->
      (findNamedFunc_members pkg pos ((s, mem) :: rest) = Ok (Some fn)
       /\ ((exists s0 f, In (s0, MFunction f) ((s, mem) :: rest)
                         /\ Function_Pos f = pos)
           \/ (exists s0 T sel, In (s0, MType T) ((s, mem) :: rest)
                 /\ In sel (MethodSet (types.Pointer T))
                 /\ types.Pos (types.Obj sel) = pos)))
      \/ (findNamedFunc_members pkg pos ((s, mem) :: rest) = Ok None
          /\ (forall s0 f, In (s0, MFunction f) ((s, mem) :: rest) ->
                           Function_Pos f <> pos)
          /\ (forall s0 T sel, In (s0, MType T) ((s, mem) :: rest) ->
                In sel (MethodSet (types.Pointer T)) ->
                types.Pos (types.Obj sel) <> pos))).
    { intros -> Hf Ht.
      destruct IH' as [[Hr Hc]|(Hr & Hnf & Hnt)].
      - left. split; [exact Hr|].
        destruct Hc as [(s0 & f & Hin & Hp)|(s0 & T & sel & Hin & Hsel)].
        + left. exists s0, f. split; [right; exact Hin | exact Hp].
        + right. exists s0, T, sel. split; [right; exact Hin | exact Hsel].
      - right. split; [exact Hr|]. split.
        + intros s0 f [[= -> ->]|Hin]; [exact (Hf f eq_refl) | exact (Hnf s0 f Hin)].
        + intros s0 T sel [[= -> ->]|Hin];
            [exact (Ht T sel eq_refl) | exact (Hnt s0 T sel Hin)]. }
    destruct mem as [f|T|g|c]; try (apply Hskip; [reflexivity | discriminate | discriminate]).
    + simpl. destruct (Z.eqb_spec (Function_Pos f) pos) as [Heq|Hne].
      * left. pose proof (Hfun s f (or_introl eq_refl) Heq) as Hf. subst fn.
        split; [reflexivity|]. left. exists s, f.
        split; [left; reflexivity | exact Heq].
      * simpl in Hskip. destruct (Z.eqb_spec (Function_Pos f) pos) as [|_];
          [contradiction|].
        apply Hskip; [reflexivity | intros f' [= <-]; exact Hne | discriminate].
    + simpl. simpl in Hskip.
      destruct (findNamedFunc_mset pkg pos (MethodSet (types.Pointer T)))
        as [r|] eqn:Hm.
      * destruct (findNamedFunc_mset_Some _ _ _ _ Hm) as (sel & Hin & Hp & ->).
        rewrite (Hmeth s T sel (or_introl eq_refl) Hin Hp).
        left. split; [reflexivity|]. right. exists s, T, sel.
        split; [left; reflexivity|]. auto.
      * apply Hskip; [reflexivity | discriminate|].
        intros T' sel [= <-]. apply (proj1 (findNamedFunc_mset_None _ _ _) Hm).
Qed.

(** X9.  The order in which the range over the map [pkg.Members] visits
    the members does not matter once positions identify declarations: if the
    function members at the position are all [fn], and the table holds [fn]
    for every method at the position, [findNamedFunc] gives the same result
    for every order of the members. *)
Theorem findNamedFunc_order_independent pkg init' mems' pos fn :
  Permutation (Members pkg) mems' ->
  (forall s f, In (s, MFunction f) (Members pkg) -> Function_Pos f = pos -> f = fn) ->
  (forall s T sel, In (s, MType T) (Members pkg) ->
      In sel (MethodSet (types.Pointer T)) ->
      types.Pos (types.Obj sel) = pos ->
      values pkg !! types.addr (types.Obj sel) = Some (VFunction fn)) ->
  findNamedFunc (Some (mkPackage init' mems' (values pkg))) pos
  = findNamedFunc (Some pkg) pos.
Proof.
  intros Hperm Hfun Hmeth. unfold findNamedFunc. cbn [Members].
  assert (Hin : forall x, In x mems' -> In x (Members pkg)).
  { intros x. apply Permutation_in. symmetry. exact Hperm. }
  assert (Hin' : forall x, In x (Members pkg) -> In x mems').
  { intros x. apply Permutation_in. exact Hperm. }
  set (pkg' := mkPackage init' mems' (values pkg)).
  pose proof (findNamedFunc_members_unique pkg pos (Members pkg) fn Hfun Hmeth) as H1.
  pose proof (findNamedFunc_members_unique pkg' pos mems' fn
                (fun s f Hi => Hfun s f (Hin _ Hi))
                (fun s T sel Hi => Hmeth s T sel (Hin _ Hi))) as H2.
  destruct H1 as [[Hr1 Hc1]|(Hr1 & Hnf1 & Hnt1)],
           H2 as [[Hr2 Hc2]|(Hr2 & Hnf2 & Hnt2)];
    rewrite Hr1, Hr2; try reflexivity; exfalso.
  - destruct Hc1 as [(s & f & Hi & Hp)|(s & T & sel & Hi & Hsel & Hp)].
    + exact (Hnf2 s f (Hin' _ Hi) Hp).
    + exact (Hnt2 s T sel (Hin' _ Hi) Hsel Hp).
  - destruct Hc2 as [(s & f & Hi & Hp)|(s & T & sel & Hi & Hsel & Hp)].
    + exact (Hnf1 s f (Hin _ Hi) Hp).
    + exact (Hnt1 s T sel (Hin _ Hi) Hsel Hp).
Qed.

Lemma findAnon_unique anons p anon :
  List.NoDup (map Function_Pos anons) ->
  In anon anons -> Function_Pos anon = p ->
  findAnon anons p = Some anon.
Proof.
  induction anons as [|a rest IH]; simpl; intros Hnd Hin Hp; [destruct Hin|].
  apply List.NoDup_cons_iff in Hnd as [Hnotin Hnd].
  destruct (Z.eqb_spec (Function_Pos a) p) as [Heq|Hne].
  - destruct Hin as [->|Hin]; [reflexivity|].
    exfalso. apply Hnotin. rewrite Heq, <- Hp. apply in_map. exact Hin.
  - destruct Hin as [->|Hin]; [contradiction|]. apply IH; assumption.
Qed.

(** X10.  When no two entries of AnonFuncs share a position, the search
    for the entry of a literal does not depend on the order of the entries. *)
Theorem findAnon_order_independent anons anons' p :
  Permutation anons anons' ->
  List.NoDup (map Function_Pos anons) ->
  findAnon anons' p = findAnon anons p.
Proof.
  intros Hperm Hnd.
  assert (Hnd' : List.NoDup (map Function_Pos anons')).
  { eapply Permutation_NoDup; [apply Permutation_map; exact Hperm | exact Hnd]. }
  destruct (findAnon anons p) as [a|] eqn:Ha.
  - apply findAnon_Some in Ha as [Hin Hp].
    apply findAnon_unique; [exact Hnd' | | exact Hp].
    eapply Permutation_in; [exact Hperm | exact Hin].
  - destruct (findAnon anons' p) as [a'|] eqn:Ha'; [|reflexivity].
    apply findAnon_Some in Ha' as [Hin Hp].
    exfalso. apply (proj1 (findAnon_None anons p) Ha a'); [|exact Hp].
    eapply Permutation_in; [symmetry; exact Hperm | exact Hin].
Qed.

(** X11.  By position and by object.  For a method object of a created
    package that is no built-in, where positions identify the method: the
    function [findNamedFunc] finds at the position of the object is the value
    [FuncValue] returns for the object. *)
Theorem FuncValue_agrees_with_findNamedFunc prog pkg k obj fn :
  types.Pkg obj = Some k ->
  packages prog !! k = Some pkg ->
  builtins prog !! types.addr obj = None ->
  (forall s f, In (s, MFunction f) (Members pkg) ->
               Function_Pos f <> types.Pos obj) ->
  (forall s T sel, In (s, MType T) (Members pkg) ->
      In sel (MethodSet (types.Pointer T)) ->
      types.Pos (types.Obj sel) = types.Pos obj ->
      types.addr (types.Obj sel) = types.addr obj) ->
  findNamedFunc (Some pkg) (types.Pos obj) = Ok (Some fn) ->
  FuncValue prog obj = Some (VFunction fn).
Proof.
  intros Hk Hpkg Hb Hfun Huniq Hfound. unfold findNamedFunc in Hfound.
  destruct (findNamedFunc_members_Some _ _ _ _ Hfound)
    as [(s & Hin & Hp)|(s & T & sel & Hin & Hsel & Hp & Hv)].
  - destruct (Hfun s fn Hin Hp).
  - rewrite (Huniq s T sel Hin Hsel Hp) in Hv.
    unfold FuncValue. rewrite Hb.
    unfold packageLevelValue, Program_Package. rewrite Hk. cbn [mbind option_bind].
    rewrite Hpkg, Hv. reflexivity.
Qed.

(** *** ValueForExpr *)

(** X12.  The scan order of [ValueForExpr] does not matter when the debug
    references of an expression agree: if some reference of [f] is for the
    unparenthesized [e], and all such references hold the same value, that
    value is the result wherever the reference sits. *)
Theorem ValueForExpr_order_independent f e b ref :
  debugInfo f = true ->
  In b (Blocks f) -> In (IDebugRef ref) (Instrs b) ->
  ast.Expr_eqb (Expr ref) (unparen e) = true ->
  (forall b' ref', In b' (Blocks f) -> In (IDebugRef ref') (Instrs b') ->
     ast.Expr_eqb (Expr ref') (unparen e) = true -> X ref' = X ref) ->
  ValueForExpr f e = X ref.
Proof.
  intros Hd Hb Hin Heq Hsame. unfold ValueForExpr. rewrite Hd.
  destruct (ValueForExpr_blocks_cases (unparen e) (Blocks f))
    as [(b' & ref' & Hb' & Hin' & Heq' & ->)|[Hall _]].
  - exact (Hsame b' ref' Hb' Hin' Heq').
  - rewrite (Hall b ref Hb Hin) in Heq. discriminate.
Qed.

(** *** VarValue *)

Lemma VarValue_params_Some obj params param :
  VarValue_params obj params = Some param ->
  In param params /\ types.addr (Param_object param) = types.addr obj.
Proof.
  induction params as [|p rest IH]; simpl; [discriminate|].
  destruct (Pos.eqb_spec (types.addr (Param_object p)) (types.addr obj)) as [Heq|Hne].
  - intros [= <-]. auto.
  - intros Hr. destruct (IH Hr). auto.
Qed.

Lemma VarValue_params_None obj params :
  VarValue_params obj params = None ->
  forall param, In param params ->
                types.addr (Param_object param) <> types.addr obj.
Proof.
  induction params as [|p rest IH]; simpl; intros Hn param Hin; [destruct Hin|].
  destruct (Pos.eqb_spec (types.addr (Param_object p)) (types.addr obj)) as [Heq|Hne];
    [discriminate|].
  destruct Hin as [<-|Hin]; [exact Hne | exact (IH Hn param Hin)].
Qed.

Lemma VarValue_instrs_Some p instrs v :
  VarValue_instrs p instrs = Some v ->
  exists ref, In (IDebugRef ref) instrs /\ DebugRef_Pos ref = p /\ v = X ref.
Proof.
  induction instrs as [|[ref|] rest IH]; simpl; [discriminate| |].
  - destruct (Z.eqb_spec (DebugRef_Pos ref) p) as [Heq|Hne].
    + intros [= <-]. exists ref. auto.
    + intros Hr. destruct (IH Hr) as (r & Hin & Hr'). exists r. auto.
  - intros Hr. destruct (IH Hr) as (r & Hin & Hr'). exists r. auto.
Qed.

Lemma VarValue_blocks_Some p blocks v :
  VarValue_blocks p blocks = Some v ->
  exists b ref, In b blocks /\ In (IDebugRef ref) (Instrs b)
                /\ DebugRef_Pos ref = p /\ X ref = Some v.
Proof.
  induction blocks as [|b rest IH]; simpl; [discriminate|].
  destruct (VarValue_instrs p (Instrs b)) as [w|] eqn:Hb.
  - intros ->. destruct (VarValue_instrs_Some _ _ _ Hb) as (ref & Hin & Hp & Hx).
    exists b, ref. auto.
  - intros Hr. destruct (IH Hr) as (b' & ref & Hb' & Hrest). exists b', ref. auto.
Qed.

(** X13.  Where a value of [VarValue] comes from.  A value it returns is
    the Global that the table of a created package holds for the variable;
    or, the variable having no such entry, it belongs to the function that
    [EnclosingFunction] finds for the chain: a parameter of that function
    declared as the variable, at the defining identifier, or the value of a
    debug reference of one of its blocks at the position of the identifier. *)
Theorem VarValue_value_origin prog obj pkg ref v :
  VarValue prog obj pkg ref = Ok (Some v) ->
  exists id rest, ref = ast.IdentNode id :: rest
  /\ ((exists g, packageLevelValue prog obj = Some (VGlobal g) /\ v = VGlobal g)
      \/ (packageLevelValue prog obj = None
          /\ exists fn, EnclosingFunction pkg ref = Ok (Some fn)
             /\ ((exists param, v = VParameter param /\ In param (Params fn)
                    /\ types.addr (Param_object param) = types.addr obj
                    /\ ast.NamePos id = types.Pos obj)
                 \/ (exists b dref, In b (Blocks fn)
                       /\ In (IDebugRef dref) (Instrs b)
                       /\ DebugRef_Pos dref = ast.NamePos id
                       /\ X dref = Some v)))).
Proof.
  unfold VarValue. destruct ref as [|n rest]; cbn [lookup list_lookup]; [discriminate|].
  destruct n as [| | | |id|]; try discriminate.
  intros Hv. exists id, rest. split; [reflexivity|].
  destruct (packageLevelValue prog obj) as [w|].
  - destruct w; try discriminate. injection Hv as <-. left. eauto.
  - right. split; [reflexivity|].
    destruct (EnclosingFunction pkg (ast.IdentNode id :: rest)) as [[fn|]|q];
      cbn [mbind result_bind] in Hv; try discriminate.
    exists fn. split; [reflexivity|]. injection Hv as Hv.
    unfold VarValue_local in Hv.
    destruct (Z.eqb_spec (ast.NamePos id) (types.Pos obj)) as [Hpos|Hpos].
    + destruct (VarValue_params obj (Params fn)) as [param|] eqn:Hparam.
      * injection Hv as <-. left. exists param.
        destruct (VarValue_params_Some _ _ _ Hparam). auto.
      * right. apply VarValue_blocks_Some. exact Hv.
    + right. apply VarValue_blocks_Some. exact Hv.
Qed.

(** X14.  The defining identifier of a parameter.  For a variable with no
    package-level value, at the identifier that declares it: if the function
    [EnclosingFunction] finds has a parameter declared as the variable,
    [VarValue] returns such a parameter, whatever the debug references
    are. *)
Theorem VarValue_defining_parameter prog obj pkg id rest fn param :
  packageLevelValue prog obj = None ->
  EnclosingFunction pkg (ast.IdentNode id :: rest) = Ok (Some fn) ->
  ast.NamePos id = types.Pos obj ->
  In param (Params fn) ->
  types.addr (Param_object param) = types.addr obj ->
  exists param', VarValue prog obj pkg (ast.IdentNode id :: rest)
                 = Ok (Some (VParameter param'))
    /\ In param' (Params fn)
    /\ types.addr (Param_object param') = types.addr obj.
Proof.
  intros Hv Hfn Hpos Hin Hobj. unfold VarValue. cbn [lookup list_lookup].
  rewrite Hv, Hfn. cbn [mbind result_bind]. unfold VarValue_local.
  rewrite Hpos, Z.eqb_refl.
  destruct (VarValue_params obj (Params fn)) as [param'|] eqn:Hparam.
  - exists param'. destruct (VarValue_params_Some _ _ _ Hparam). auto.
  - destruct (VarValue_params_None _ _ Hparam param Hin Hobj).
Qed.

(** X15.  The panics of [VarValue], all of them: an empty chain; a head
    that is not an identifier; a package-level value of the variable that is
    not a Global; and, for a variable without package-level value, a panic
    of [EnclosingFunction], which is passed on. *)
Theorem VarValue_panics prog obj pkg ref p :
  VarValue prog obj pkg ref = Panic p <->
  (ref = [] /\ p = IndexOutOfRange)
  \/ (exists n rest, ref = n :: rest /\ (forall id, n <> ast.IdentNode id)
        /\ p = InterfaceConversion)
  \/ (exists id rest, ref = ast.IdentNode id :: rest
        /\ ((exists v, packageLevelValue prog obj = Some v
               /\ (forall g, v <> VGlobal g) /\ p = InterfaceConversion)
            \/ (packageLevelValue prog obj = None
                /\ EnclosingFunction pkg ref = Panic p))).
Proof.
  unfold VarValue. destruct ref as [|n rest]; cbn [lookup list_lookup].
  - split.
    + intros [= <-]. left. auto.
    + intros [[_ ->]|[(n & rest & Hr & _)|(id & rest & Hr & _)]];
        [reflexivity | discriminate | discriminate].
  - assert (Hother : (forall id, n <> ast.IdentNode id) ->
        @Panic (option (Value Function)) InterfaceConversion = Panic p <->
        (n :: rest = [] /\ p = IndexOutOfRange)
        \/ (exists n0 rest0, n :: rest = n0 :: rest0
              /\ (forall id, n0 <> ast.IdentNode id) /\ p = InterfaceConversion)
        \/ (exists id rest0, n :: rest = ast.IdentNode id :: rest0
              /\ ((exists v, packageLevelValue prog obj = Some v
                     /\ (forall g, v <> VGlobal g) /\ p = InterfaceConversion)
                  \/ (packageLevelValue prog obj = None
                      /\ EnclosingFunction pkg (n :: rest) = Panic p)))).
    { intros Hn. split.
      - intros [= <-]. right. left. exists n, rest. auto.
      - intros [[[=] _]|[(n0 & rest0 & _ & _ & ->)|(id & rest0 & [= -> _] & _)]];
          [reflexivity | destruct (Hn id eq_refl)]. }
    destruct n as [| | | |id|]; try (apply Hother; discriminate).
    clear Hother. split.
    + intros Hp. right. right. exists id, rest. split; [reflexivity|].
      destruct (packageLevelValue prog obj) as [v|].
      * left. exists v. split; [reflexivity|].
        destruct v; try (injection Hp as <-; split; [discriminate | reflexivity]).
        discriminate.
      * right. split; [reflexivity|].
        destruct (EnclosingFunction pkg (ast.IdentNode id :: rest)) as [[fn|]|q];
          cbn [mbind result_bind] in Hp; try discriminate.
        injection Hp as ->. reflexivity.
    + intros [[[=] _]|[(n0 & rest0 & [= <- _] & Hn & _)|(id' & rest0 & _ & Hcase)]].
      * destruct (Hn id eq_refl).
      * destruct Hcase as [(v & -> & Hv & ->)|[-> ->]].
        -- destruct v; try reflexivity. destruct (Hv g eq_refl).
        -- reflexivity.
Qed.

Lemma descend_unbuilt f chain g :
  descend (unbuiltFunction f) chain = Some g -> g = unbuiltFunction f.
Proof.
  revert g. induction chain as [|n outer IH]; intros g; simpl.
  - intros [= <-]. reflexivity.
  - destruct (descend (unbuiltFunction f) outer) as [g'|]; [|discriminate].
    rewrite (IH g' eq_refl).
    destruct n; intros [= <-]; reflexivity.
Qed.

(** X16.  Before the functions of the package are built, [VarValue] has
    nothing to return for a variable that is not at package level: for every
    chain the result is nil or a panic, never a value. *)
Theorem VarValue_unbuilt_package prog obj pkg ref v :
  packageLevelValue prog obj = None ->
  VarValue prog obj (unbuiltPackage <$> pkg) ref <> Ok (Some v).
Proof.
  intros Hv Hval.
  destruct (VarValue_value_origin _ _ _ _ _ Hval)
    as (id & rest & -> & [(g & Hg & _)|(_ & fn & Hfn & Hor)]).
  - rewrite Hv in Hg. discriminate.
  - assert (Hfn' : exists f, fn = unbuiltFunction f).
    { pose proof (findEnclosingPackageLevelFunction_unbuilt pkg
                    (ast.IdentNode id :: rest)) as HA'.
      destruct (findEnclosingPackageLevelFunction pkg (ast.IdentNode id :: rest))
        as [[f|]|q]; cbn [unbuiltResult option_map] in HA'.
      - exists f. rewrite (EnclosingFunction_descend _ _ _ HA') in Hfn.
        apply descend_unbuilt with (chain := ast.IdentNode id :: rest).
        congruence.
      - unfold EnclosingFunction in Hfn. rewrite HA' in Hfn. discriminate.
      - unfold EnclosingFunction in Hfn. rewrite HA' in Hfn. discriminate. }
    destruct Hfn' as [f ->].
    destruct Hor as [(param & _ & [] & _)|(b & _ & [] & _)].
Qed.

(** *** ConstValue *)

(** X17.  Two calls of [ConstValue] in a row on one object.  Either both
    return the entry of the table of its package, the same cell, and nothing
    is allocated; or each allocates: the two constants are distinct cells
    that carry the value and the type of the object. *)
Theorem ConstValue_twice prog obj next c1 next1 c2 next2 :
  ConstValue prog obj next = Ok (Some c1, next1) ->
  ConstValue prog obj next1 = Ok (Some c2, next2) ->
  (c1 = c2 /\ next1 = next /\ next2 = next
   /\ packageLevelValue prog (types.object obj) = Some (VConst c1))
  \/ (Const_at c1 <> Const_at c2
      /\ Const_Value c1 = types.Val obj /\ Const_Value c2 = types.Val obj
      /\ Const_typ c1 = types.Typ (types.object obj)
      /\ Const_typ c2 = types.Typ (types.object obj)).
Proof.
  unfold ConstValue, NewConst.
  destruct (types.Scope_eqb (types.Parent (types.object obj)) types.Universe).
  - intros [= <- <-] [= <- <-]. right. cbn. split; [|auto].
    intros Heq. exact (Pos.succ_discr _ Heq).
  - destruct (packageLevelValue prog (types.object obj)) as [[f|g|c|b|q|r]|];
      try discriminate.
    + intros [= <- <-] [= <- <-]. left. auto.
    + intros [= <- <-] [= <- <-]. right. cbn. split; [|auto].
      intros Heq. exact (Pos.succ_discr _ Heq).
Qed.

End MoreProperties.

(** *** types.Check *)

Section CheckProperties.

Context {Config FileSet File Info Error D : Type}.
Variable zero : Config.
Variable check : Config -> string -> FileSet -> list File -> option Info ->
                 option (api.Package D) * option Error.

(** X18.  [Check] returns a package or an error, never both and never
    neither: a package it returns is the checker's, marked complete, and was
    returned without error; the error is the checker's, and a package that
    the checker returned with it is dropped, where [Config.Check] hands
    that package on as it is.  [Check] panics exactly when the checker
    returns neither. *)
Theorem Check_package_or_error path fset files :
  (forall pkg err, api.Check zero check path fset files = Ok (pkg, err) ->
     (exists p0, check zero path fset files None = (Some p0, None)
        /\ pkg = Some (api.mkPackage (api.contents p0) true) /\ err = None)
     \/ (exists pkg0 e, check zero path fset files None = (pkg0, Some e)
           /\ pkg = None /\ err = Some e
           /\ api.Config_Check check zero path fset files None = Ok (pkg0, Some e)))
  /\ (forall p, api.Check zero check path fset files = Panic p <->
        check zero path fset files None = (None, None) /\ p = NilDereference).
Proof.
  unfold api.Check, api.Config_Check.
  destruct (check zero path fset files None) as [[p0|] [e|]]; split.
  - intros pkg err [= <- <-]. right. exists (Some p0), e. auto.
  - intros p. split; [discriminate | intros [[=] _]].
  - intros pkg err [= <- <-]. left. exists p0. auto.
  - intros p. split; [discriminate | intros [[=] _]].
  - intros pkg err [= <- <-]. right. exists None, e. auto.
  - intros p. split; [discriminate | intros [[=] _]].
  - discriminate.
  - intros p. split; [intros [= <-]; auto | intros [_ ->]; reflexivity].
Qed.

End CheckProperties.

(** ** The properties on the sample package *)

#[local] Existing Instance Sample.collaborators.

(** C1 on the chain to [a]: with [f] built the result is the function of
    the literal; before [f] is built it is nil, not [f]. *)
Lemma EnclosingFunction_innermost_sample :
  EnclosingFunction (Some Sample.pkg) Sample.path_a = Ok (Some Sample.fn_lit)
  /\ EnclosingFunction (Some (unbuiltPackage Sample.pkg)) Sample.path_a = Ok None.
Proof.
  split.
  - apply (proj2 (EnclosingFunction_innermost (Some Sample.pkg) Sample.path_a
                    Sample.fn_f eq_refl) Sample.fn_lit).
    apply Descends_descend. reflexivity.
  - apply (proj1 (EnclosingFunction_innermost (Some (unbuiltPackage Sample.pkg))
                    Sample.path_a (unbuiltFunction Sample.fn_f) eq_refl)
             [ast.IdentNode Sample.ident_a; ast.OtherNode] (ast.mkFuncType 20%Z)
             [ast.OtherNode; ast.FuncDecl None (ast.mkIdent "f" 10%Z); ast.File]
             (unbuiltFunction Sample.fn_f)).
    + reflexivity.
    + apply Descends_descend. reflexivity.
    + intros anon [].
Defined.

(** C2 fails as stated: the blank function has no member in the package, so
    a chain into its body is classified as a named declaration and
    [HasEnclosingFunction] returns false. *)
Lemma HasEnclosingFunction_blank_function :
  ClassifyEnclosingTopLevel Sample.path_blank = NamedDeclaration 70%Z
  /\ ClassifyEnclosingTopLevel Sample.path_blank <> NoEnclosing
  /\ HasEnclosingFunction (Some Sample.pkg) Sample.path_blank = Ok false.
Proof. split; [reflexivity|]. split; [discriminate | reflexivity]. Qed.

(** C2, amended, on three chains: under the constant declaration, under the
    variable declaration, and in the body of the method [m]. *)
Lemma HasEnclosingFunction_classification_sample :
  HasEnclosingFunction (Some Sample.pkg) Sample.path_c = Ok false
  /\ HasEnclosingFunction (Some Sample.pkg) Sample.path_g = Ok true
  /\ HasEnclosingFunction (Some Sample.pkg) Sample.path_m = Ok true.
Proof.
  pose proof (HasEnclosingFunction_classification (Some Sample.pkg) Sample.path_c)
    as (_ & Hc & _).
  pose proof (HasEnclosingFunction_classification (Some Sample.pkg) Sample.path_g)
    as (_ & _ & Hg & _).
  pose proof (HasEnclosingFunction_classification (Some Sample.pkg) Sample.path_m)
    as (_ & _ & _ & Hm & _).
  split; [exact (Hc eq_refl)|]. split; [exact (Hg eq_refl)|].
  exact (Hm 40%Z eq_refl).
Defined.

(** C3 on the chain to the value of [c], which no function encloses. *)
Lemma HasEnclosingFunction_false_sample :
  EnclosingFunction (Some Sample.pkg) Sample.path_c = Ok None.
Proof.
  apply (HasEnclosingFunction_false_EnclosingFunction (Some Sample.pkg) Sample.path_c).
  reflexivity.
Defined.

(** C4 on [m], built without debug information, and on the literal, for
    the parenthesized [(a)]. *)
Lemma ValueForExpr_debug_refs_sample :
  ValueForExpr Sample.fn_m Sample.expr_a = None
  /\ ((exists b ref, In b (Blocks Sample.fn_lit) /\ In (IDebugRef ref) (Instrs b)
         /\ ast.Expr_eqb (Expr ref) (unparen (ast.ParenExpr 102%positive Sample.expr_a)) = true
         /\ ValueForExpr Sample.fn_lit (ast.ParenExpr 102%positive Sample.expr_a) = X ref)
      \/ ((forall b ref, In b (Blocks Sample.fn_lit) -> In (IDebugRef ref) (Instrs b) ->
             ast.Expr_eqb (Expr ref) (unparen (ast.ParenExpr 102%positive Sample.expr_a)) = false)
          /\ ValueForExpr Sample.fn_lit (ast.ParenExpr 102%positive Sample.expr_a) = None)).
Proof.
  split.
  - apply (proj1 (ValueForExpr_debug_refs Sample.fn_m Sample.expr_a)). reflexivity.
  - apply (proj2 (ValueForExpr_debug_refs Sample.fn_lit
                    (ast.ParenExpr 102%positive Sample.expr_a))).
    reflexivity.
Defined.

(** C6 on the universal constant [true], on a constant of a package that
    has not been created, and on the constant [c], whose Const the table of
    the package holds. *)
Lemma ConstValue_never_nil_sample :
  ConstValue Sample.prog Sample.obj_true 2000%positive
  = Ok (Some (mkConst 2000%positive (exact.Bool true) (types.Basic "untyped bool")),
        2001%positive)
  /\ ConstValue Sample.prog Sample.obj_k 2000%positive
     = Ok (Some (mkConst 2000%positive (exact.Int 3%Z) Sample.int), 2001%positive)
  /\ ConstValue Sample.prog Sample.obj_c 2000%positive
     = Ok (Some Sample.const_c, 2000%positive).
Proof.
  split; [|split].
  - apply (proj1 (proj2 (ConstValue_never_nil Sample.prog Sample.obj_true 2000%positive))).
    left. reflexivity.
  - apply (proj1 (proj2 (ConstValue_never_nil Sample.prog Sample.obj_k 2000%positive))).
    right. reflexivity.
  - apply (proj1 (proj2 (proj2 (ConstValue_never_nil Sample.prog Sample.obj_c
                                  2000%positive)))).
    + discriminate.
    + reflexivity.
Defined.

(** C7 on the chain to [a] before [f] is built. *)
Lemma VarValue_not_found_propagates_sample :
  VarValue Sample.prog Sample.obj_a (Some (unbuiltPackage Sample.pkg)) Sample.path_a
  = Ok None.
Proof.
  apply (VarValue_not_found_propagates Sample.prog Sample.obj_a
           (Some (unbuiltPackage Sample.pkg)) Sample.path_a Sample.ident_a
           (tail Sample.path_a)).
  - reflexivity.
  - vm_compute. reflexivity.
  - vm_compute. reflexivity.
Defined.

(** C8 on the chain into the body of [m]: the result is the table entry of
    the method found in the method set of [*T]. *)
Lemma findNamedFunc_declared_method_sample :
  findEnclosingPackageLevelFunction (Some Sample.pkg) Sample.path_m
  = Ok (Some Sample.fn_m)
  /\ exists s T sel, In (s, MType T) (Members Sample.pkg)
       /\ In sel (MethodSet (types.Pointer T))
       /\ types.Pos (types.Obj sel) = 40%Z
       /\ values Sample.pkg !! types.addr (types.Obj sel)
          = Some (VFunction Sample.fn_m).
Proof.
  assert (Hfun : forall s f, In (s, MFunction f) (Members Sample.pkg) ->
                             Function_Pos f <> 40%Z).
  { intros s f [[= <- <-]|[[=]|[[=]|[[=]|[]]]]]. discriminate. }
  pose proof (findNamedFunc_declared_method Sample.pkg Sample.path_m
                (ast.mkFieldList 35%Z) (ast.mkIdent "m" 40%Z)
                (le_S _ _ (le_n 2)) eq_refl Hfun) as (_ & Hsome & _).
  split; [vm_compute; reflexivity|].
  apply Hsome. vm_compute. reflexivity.
Defined.

(** C9 on the function [h] of a package that has not been created: it has
    no receiver, and [FuncValue] panics where it should return nil. *)
Lemma FuncValue_third_branch_unguarded_sample :
  FuncValue_calls SampleCalls.recvType_call SampleCalls.Method_call
    Sample.prog Sample.obj_h = Panic NilDereference.
Proof.
  apply (proj1 (FuncValue_third_branch_unguarded SampleCalls.recvType_call
                  SampleCalls.Method_call Sample.prog Sample.obj_h
                  eq_refl eq_refl)).
  reflexivity.
Defined.

(** C10 on the package-level variable [g]: the empty chain, and a chain
    whose head is not an identifier. *)
Lemma VarValue_requires_ident_sample :
  (exists p, VarValue Sample.prog Sample.obj_g (Some Sample.pkg) [] = Panic p)
  /\ (exists p, VarValue Sample.prog Sample.obj_g (Some Sample.pkg) Sample.path_g
                = Panic p).
Proof.
  split.
  - apply (VarValue_requires_ident Sample.prog Sample.obj_g (Some Sample.pkg) []).
    left. reflexivity.
  - apply (VarValue_requires_ident Sample.prog Sample.obj_g (Some Sample.pkg)
             Sample.path_g).
    right. exists ast.OtherNode, (tail Sample.path_g).
    split; [reflexivity | discriminate].
Defined.

(** ** The further properties on the sample package *)

(** X1 on the chain to [a]: with a nil package both panic, with the package
    both succeed. *)
Lemma EnclosingFunction_panics_as_HasEnclosingFunction_sample :
  HasEnclosingFunction None Sample.path_a = Panic NilDereference
  /\ HasEnclosingFunction (Some Sample.pkg) Sample.path_a = Ok true.
Proof.
  pose proof (EnclosingFunction_panics_as_HasEnclosingFunction None Sample.path_a)
    as [Hp _].
  pose proof (EnclosingFunction_panics_as_HasEnclosingFunction (Some Sample.pkg)
                Sample.path_a) as [_ Hg].
  split.
  - apply Hp. reflexivity.
  - apply (Hg Sample.fn_lit). reflexivity.
Defined.

(** X2 on the chain into the body of [m]. *)
Lemma EnclosingFunction_without_literals_sample :
  EnclosingFunction (Some Sample.pkg) Sample.path_m = Ok (Some Sample.fn_m).
Proof.
  rewrite (EnclosingFunction_without_literals (Some Sample.pkg) Sample.path_m eq_refl).
  vm_compute. reflexivity.
Defined.

(** X3 on the chain to [a], which has one literal. *)
Lemma EnclosingFunction_nesting_depth_sample :
  NestedAt 1 Sample.fn_f Sample.fn_lit.
Proof.
  apply (EnclosingFunction_nesting_depth (Some Sample.pkg) Sample.path_a
           Sample.fn_f Sample.fn_lit); reflexivity.
Defined.

(** X4: from the chain of the body of [f] to the chain of its literal. *)
Lemma EnclosingFunction_child_chain_sample :
  EnclosingFunction (Some Sample.pkg) SampleMore.path_lit = Ok (Some Sample.fn_lit).
Proof.
  unfold SampleMore.path_lit.
  rewrite (EnclosingFunction_child_chain (Some Sample.pkg)
             (ast.FuncLit (ast.mkFuncType 20%Z)) SampleMore.path_body (le_n 3)).
  vm_compute. reflexivity.
Defined.

(** X5 on two chains under the declaration of [f], with different roots. *)
Lemma findEnclosingPackageLevelFunction_declaration_only_sample :
  findEnclosingPackageLevelFunction (Some Sample.pkg)
    ([ast.OtherNode] ++ [ast.FuncDecl None (ast.mkIdent "f" 10%Z); ast.File])
  = findEnclosingPackageLevelFunction (Some Sample.pkg)
      ([ast.IdentNode Sample.ident_a; ast.OtherNode]
       ++ [ast.FuncDecl None (ast.mkIdent "f" 10%Z); ast.OtherNode]).
Proof.
  apply (proj1 (findEnclosingPackageLevelFunction_declaration_only
                  (Some Sample.pkg) (ast.FuncDecl None (ast.mkIdent "f" 10%Z))
                  ast.File ast.OtherNode)); discriminate.
Defined.

(** X6 on a chain below the constant declaration. *)
Lemma findEnclosingPackageLevelFunction_var_boundary_sample :
  findEnclosingPackageLevelFunction (Some Sample.pkg)
    ([ast.OtherNode; ast.OtherNode] ++ [ast.GenDecl token.CONST; ast.File])
  = Ok None.
Proof.
  apply (proj2 (proj2 (findEnclosingPackageLevelFunction_var_boundary
                         (Some Sample.pkg) ast.File))).
  discriminate.
Defined.

(** X7 on the chain of the file root alone. *)
Lemma EnclosingFunction_nil_package_sample :
  EnclosingFunction None [ast.File] = Ok None.
Proof.
  apply (proj1 (proj2 (proj2 EnclosingFunction_nil_package))).
  apply le_n.
Defined.

(** X8 on the nil package. *)
Lemma findNamedFunc_panics_sample :
  findNamedFunc None 40%Z = Panic NilDereference
  /\ ((None = None :> option Package /\ NilDereference = NilDereference)
      \/ (exists pk, None = Some pk /\ NilDereference = InterfaceConversion
            /\ exists s T sel, In (s, MType T) (Members pk)
                 /\ In sel (MethodSet (types.Pointer T))
                 /\ types.Pos (types.Obj sel) = 40%Z
                 /\ forall f, values pk !! types.addr (types.Obj sel)
                              <> Some (VFunction f))).
Proof.
  split; [reflexivity|].
  apply (findNamedFunc_panics None 40%Z NilDereference). reflexivity.
Defined.

(** X9 for the method [m], with the members visited in reverse. *)
Lemma findNamedFunc_order_independent_sample :
  findNamedFunc (Some (mkPackage None (rev (Members Sample.pkg)) (values Sample.pkg)))
    40%Z
  = findNamedFunc (Some Sample.pkg) 40%Z.
Proof.
  apply (findNamedFunc_order_independent Sample.pkg None
           (rev (Members Sample.pkg)) 40%Z Sample.fn_m).
  - apply Permutation_rev.
  - intros s f [[= <- <-]|[[=]|[[=]|[[=]|[]]]]]. discriminate.
  - intros s T sel [[=]|[[= <- <-]|[[=]|[[=]|[]]]]] [<-|[]] _.
    vm_compute. reflexivity.
Defined.

(** X10 on two literals of [f], in either order. *)
Lemma findAnon_order_independent_sample :
  findAnon [SampleMore.fn_lit2; Sample.fn_lit] 20%Z
  = findAnon [Sample.fn_lit; SampleMore.fn_lit2] 20%Z.
Proof.
  apply findAnon_order_independent.
  - apply perm_swap.
  - apply List.NoDup_cons; [intros [[=]|[]]|].
    apply List.NoDup_cons; [intros []|]. apply List.NoDup_nil.
Defined.

(** X11 for the method [m]. *)
Lemma FuncValue_agrees_with_findNamedFunc_sample :
  FuncValue Sample.prog Sample.obj_m = Some (VFunction Sample.fn_m).
Proof.
  apply (FuncValue_agrees_with_findNamedFunc Sample.prog Sample.pkg 1%positive
           Sample.obj_m Sample.fn_m).
  - reflexivity.
  - reflexivity.
  - reflexivity.
  - intros s f [[= <- <-]|[[=]|[[=]|[[=]|[]]]]]. discriminate.
  - intros s T sel [[=]|[[= <- <-]|[[=]|[[=]|[]]]]] [<-|[]] _. reflexivity.
  - vm_compute. reflexivity.
Defined.

(** X12 for the parenthesized [(a)] in the literal. *)
Lemma ValueForExpr_order_independent_sample :
  ValueForExpr Sample.fn_lit (ast.ParenExpr 102%positive Sample.expr_a)
  = Some (VRegister 1%positive).
Proof.
  apply (ValueForExpr_order_independent Sample.fn_lit
           (ast.ParenExpr 102%positive Sample.expr_a)
           SampleMore.block_lit SampleMore.debugref_a).
  - reflexivity.
  - left. reflexivity.
  - right. left. reflexivity.
  - reflexivity.
  - intros b' ref' [<-|[]] [[=]|[[= <-]|[]]] _. reflexivity.
Defined.

(** X13 for [a] in the literal: the value is that of the debug reference. *)
Lemma VarValue_value_origin_sample :
  exists id rest, Sample.path_a = ast.IdentNode id :: rest
  /\ ((exists g, packageLevelValue Sample.prog Sample.obj_a = Some (VGlobal g)
                 /\ @VRegister Function 1%positive = VGlobal g)
      \/ (packageLevelValue Sample.prog Sample.obj_a = None
          /\ exists fn, EnclosingFunction (Some Sample.pkg) Sample.path_a
                        = Ok (Some fn)
             /\ ((exists param, @VRegister Function 1%positive = VParameter param
                    /\ In param (Params fn)
                    /\ types.addr (Param_object param) = types.addr Sample.obj_a
                    /\ ast.NamePos id = types.Pos Sample.obj_a)
                 \/ (exists b dref, In b (Blocks fn)
                       /\ In (IDebugRef dref) (Instrs b)
                       /\ DebugRef_Pos dref = ast.NamePos id
                       /\ X dref = Some (VRegister 1%positive))))).
Proof.
  apply (VarValue_value_origin Sample.prog Sample.obj_a (Some Sample.pkg)
           Sample.path_a (VRegister 1%positive)).
  vm_compute. reflexivity.
Defined.

(** X14 for [a] where [f] declares it. *)
Lemma VarValue_defining_parameter_sample :
  exists param', VarValue Sample.prog Sample.obj_a (Some Sample.pkg)
                   SampleMore.path_param = Ok (Some (VParameter param'))
    /\ In param' (Params Sample.fn_f)
    /\ types.addr (Param_object param') = types.addr Sample.obj_a.
Proof.
  apply (VarValue_defining_parameter Sample.prog Sample.obj_a (Some Sample.pkg)
           SampleMore.ident_a_def (tail SampleMore.path_param) Sample.fn_f
           Sample.param_a).
  - vm_compute. reflexivity.
  - vm_compute. reflexivity.
  - reflexivity.
  - left. reflexivity.
  - reflexivity.
Defined.

(** X15: the panic of [EnclosingFunction] on a nil package is passed on. *)
Lemma VarValue_panics_sample :
  VarValue Sample.prog Sample.obj_a None Sample.path_a = Panic NilDereference.
Proof.
  apply (proj2 (VarValue_panics Sample.prog Sample.obj_a None Sample.path_a
                  NilDereference)).
  right. right. exists Sample.ident_a, (tail Sample.path_a).
  split; [reflexivity|]. right. split; vm_compute; reflexivity.
Defined.

(** X16 for [a] before [f] is built. *)
Lemma VarValue_unbuilt_package_sample :
  VarValue Sample.prog Sample.obj_a (Some (unbuiltPackage Sample.pkg)) Sample.path_a
  <> Ok (Some (VRegister 1%positive)).
Proof.
  apply (VarValue_unbuilt_package Sample.prog Sample.obj_a (Some Sample.pkg)
           Sample.path_a (VRegister 1%positive)).
  vm_compute. reflexivity.
Defined.

(** X17 on the universal constant [true]: two cells. *)
Lemma ConstValue_twice_sample :
  (mkConst 2000%positive (exact.Bool true) (types.Basic "untyped bool")
   = mkConst 2001%positive (exact.Bool true) (types.Basic "untyped bool")
   /\ 2001%positive = 2000%positive /\ 2002%positive = 2000%positive
   /\ packageLevelValue Sample.prog (types.object Sample.obj_true)
      = Some (VConst (mkConst 2000%positive (exact.Bool true)
                        (types.Basic "untyped bool"))))
  \/ (2000%positive <> 2001%positive
      /\ exact.Bool true = types.Val Sample.obj_true
      /\ exact.Bool true = types.Val Sample.obj_true
      /\ types.Basic "untyped bool" = types.Typ (types.object Sample.obj_true)
      /\ types.Basic "untyped bool" = types.Typ (types.object Sample.obj_true)).
Proof.
  apply (ConstValue_twice Sample.prog Sample.obj_true 2000%positive
           (mkConst 2000%positive (exact.Bool true) (types.Basic "untyped bool"))
           2001%positive
           (mkConst 2001%positive (exact.Bool true) (types.Basic "untyped bool"))
           2002%positive); reflexivity.
Defined.

(** X18 on a checker that fails on an empty list of files. *)
Lemma Check_package_or_error_sample :
  (exists p0, SampleMore.check tt "p" tt [] None = (Some p0, None)
     /\ None = Some (api.mkPackage (api.contents p0) true)
     /\ Some "no files" = None)
  \/ (exists pkg0 e, SampleMore.check tt "p" tt [] None = (pkg0, Some e)
        /\ None = None :> option (api.Package string)
        /\ Some "no files" = Some e
        /\ api.Config_Check SampleMore.check tt "p" tt [] None = Ok (pkg0, Some e)).
Proof.
  apply (proj1 (Check_package_or_error tt SampleMore.check "p" tt [])).
  reflexivity.
Defined.
